(** * hack/run_test_job_balance.py: the CI job-balancing test runner of envd

    A shallow embedding of the script and the properties of its pipeline:
    metadata queries at module load, argument validation, file discovery,
    modulo sharding, command construction, child execution.

    Conventions of the embedding.
    - A Python [str] is a [string]: the bytes of its UTF-8 encoding.  Comparing
      UTF-8 byte sequences lexicographically orders them as Python orders the
      code points, so [sorted] is the same order.
    - A Python [int] is a [Z].  Python's [%] takes the sign of the divisor, as
      [Z.modulo] does.
    - A [dict] with string keys is a [gmap string string], a [set] of strings a
      [gset string].
    - Everything outside the script (the shell, git, the clock, the file
      system, the process environment, argparse, the interpreter's
      [int(str)]) is a field of the record [World]; the script only reads it.
      Each child process of the module load is a process of its own: the
      world answers the [k]-th one, and two runs of one command may be
      answered differently.
    - Effects are a trace of events paired with either an exception or a
      value.  The [logging.info] calls only write to the log stream and
      decide nothing; they are left out of the trace. *)

From Stdlib Require Import ZArith Ascii DecimalString.
From Stdlib Require DecimalPos DecimalZ.
From stdpp Require Import gmap strings list sorting.

Local Open Scope Z_scope.

(** ** Python strings *)

Module Str.

(** The double quote character, which occurs in the runner command. *)
Definition dq : string := String (Ascii.ascii_of_nat 34) EmptyString.

(** [str(n)] and the rendering of an int in an f-string. *)
Definition of_int (n : Z) : string := NilZero.string_of_int (Z.to_int n).

(** [sep.join(l)] with [sep] the empty string. *)
Definition join (l : list string) : string := String.concat EmptyString l.

(** [s.startswith(p)] *)
Fixpoint startswith (s p : string) {struct p} : bool :=
  match p, s with
  | EmptyString, _ => true
  | String _ _, EmptyString => false
  | String a p', String b s' => if Ascii.eqb a b then startswith s' p' else false
  end.

(** [s.endswith(suffix)]: [suffix] is the whole of [s] or ends its tail. *)
Fixpoint endswith (s suffix : string) : bool :=
  if String.eqb s suffix then true
  else match s with
       | EmptyString => false
       | String _ s' => endswith s' suffix
       end.

(** [needle in hay] *)
Fixpoint contains (hay needle : string) : bool :=
  if startswith hay needle then true
  else match hay with
       | EmptyString => false
       | String _ hay' => contains hay' needle
       end.

(** [c in s] for a character [c] *)
Fixpoint occurs (c : ascii) (s : string) : bool :=
  match s with
  | EmptyString => false
  | String x s' => Ascii.eqb c x || occurs c s'
  end.

(** The ASCII characters for which [str.isspace] holds.  White space outside
    ASCII is not trimmed here; git and date print ASCII. *)
Definition isspace (c : ascii) : bool :=
  let n := Ascii.nat_of_ascii c in
  ((9 <=? n)%nat && (n <=? 13)%nat) || ((28 <=? n)%nat && (n <=? 32)%nat).

Fixpoint lstrip (s : string) : string :=
  match s with
  | EmptyString => EmptyString
  | String c s' => if isspace c then lstrip s' else s
  end.

(** [s.rstrip()]: a whitespace character stays when something stays after it. *)
Fixpoint rstrip (s : string) : string :=
  match s with
  | EmptyString => EmptyString
  | String c s' =>
      match rstrip s' with
      | EmptyString => if isspace c then EmptyString else String c EmptyString
      | r => String c r
      end
  end.

Definition strip (s : string) : string := rstrip (lstrip s).

(** [bytes.decode()]: the text is kept as its UTF-8 bytes.  Output that is
    not UTF-8 is outside the model. *)
Definition decode (b : string) : string := b.

End Str.

(** ** Exceptions, events and the effect monad *)

Inductive Exception : Type :=
| RuntimeError (msg : string)
| CalledProcessError (returncode : Z) (cmd : string)
| ValueError (literal : string)
| ZeroDivisionError
| SystemExit (code : Z).

Inductive Event : Type :=
| CheckOutput (cmd : string)                  (* subprocess.check_output(cmd, shell=True) *)
| GlobScan (pattern : string)                 (* glob.glob(pattern, recursive=True) *)
| Run (cmd : string) (env : gmap string string). (* subprocess.run(cmd, shell=True, env=env) *)

(** A computation: the events it performed, in order, and how it ended. *)
Definition M (A : Type) : Type := list Event * (Exception + A).

Definition ret {A} (a : A) : M A := ([], inr a).
Definition raise {A} (e : Exception) : M A := ([], inl e).
Definition emit (ev : Event) : M unit := ([ev], inr tt).

Definition bind {A B} (m : M A) (k : A → M B) : M B :=
  match m with
  | (t, inl e) => (t, inl e)
  | (t, inr a) => let (t', r) := k a in (t ++ t', r)
  end.

Global Instance M_ret : MRet M := @ret.
Global Instance M_bind : MBind M := λ A B k m, bind m k.

Definition trace {A} (m : M A) : list Event := fst m.
Definition outcome {A} (m : M A) : Exception + A := snd m.

(** The exit status of the interpreter: [SystemExit] carries its own, any
    other uncaught exception makes it 1. *)
Definition exit_status (r : Exception + unit) : Z :=
  match r with
  | inl (SystemExit code) => code
  | inl _ => 1
  | inr _ => 0
  end.

(** ** The world outside the script *)

(** What [parser.parse_args()] returns. *)
Record Namespace : Type := {
  ci_index_arg : string;
  ci_total_arg : string;
  export_cache : bool
}.

Record World : Type := {
  (** exit status and standard output of a shell command run as the [k]-th
      child process of the module load, counted from 0 *)
  sh_output : nat → string → Z * string;
  (** the paths [glob.glob(pattern, recursive=True)] returns *)
  fs_glob : string → list string;
  (** [os.environ] *)
  os_environ : gmap string string;
  (** exit status of a shell command run with an environment *)
  sh_run : string → gmap string string → Z;
  (** [int(s)] of the interpreter; [None] is a [ValueError] *)
  builtin_int : string → option Z;
  (** argparse on the arguments of the command line, for the parser [main]
      builds: the namespace, or the status it ends the process with (0 after
      printing the help, 2 after a usage error) *)
  argparse : list string → Z + Namespace
}.

(** [subprocess.check_output(cmd, shell=True)], run as the [k]-th child
    process: a non-zero exit status raises. *)
Definition check_output (w : World) (k : nat) (cmd : string) : M string :=
  emit (CheckOutput cmd);;
  let (rc, out) := sh_output w k cmd in
  if rc =? 0 then ret out else raise (CalledProcessError rc cmd).

Definition glob (w : World) (pattern : string) : M (list string) :=
  emit (GlobScan pattern);; ret (fs_glob w pattern).

(** [subprocess.run(cmd, shell=True, env=env).returncode] *)
Definition subprocess_run (w : World) (cmd : string) (env : gmap string string) : M Z :=
  emit (Run cmd env);; ret (sh_run w cmd env).

(** [parser.parse_args()]: argparse ends the process with [SystemExit]. *)
Definition parse_args (w : World) (argv : list string) : M Namespace :=
  match argparse w argv with
  | inr args => ret args
  | inl code => raise (SystemExit code)
  end.

Definition int (w : World) (s : string) : M Z :=
  match builtin_int w s with
  | Some n => ret n
  | None => raise (ValueError s)
  end.

(** [sorted(l)] on strings.  The order is total and antisymmetric, so the
    sorted permutation is unique and the sorting algorithm does not matter. *)
Definition sorted (l : list string) : list string := merge_sort String.le l.

(** ** The script *)

Definition TEST_NAME_SYMBOL : string := "It".
Definition DYNAMIC_NODE_SYMBOL : string := "undefined".

Definition EXTRACT_GLOB_PATH : string := "e2e/**/*.go".
Definition EXCLUDE_GLOB_PATH : string := "e2e/*/docs/*.go".

(** Build inject parameters.  The five below are computed when the module is
    loaded, each by a shell command, in this order. *)
Definition ROOT : string := "github.com/tensorchord/envd".

Definition VERSION_CMD : string :=
  "git describe --match 'v[0-9]*' --always --tags --abbrev=0".
Definition BUILD_DATE_CMD : string := "date -u +'%Y-%m-%dT%H:%M:%SZ'".
Definition GIT_COMMIT_CMD : string := "git rev-parse HEAD".
Definition GIT_TREE_STATE_CMD : string := "git rev-parse HEAD".
Definition GIT_TAG_CMD : string := "git describe --tags --abbrev=0".

Record Globals : Type := {
  VERSION : string;
  BUILD_DATE : string;
  GIT_COMMIT : string;
  GIT_TREE_STATE : string;
  GIT_TAG : string
}.

(** [subprocess.check_output(cmd, shell=True).decode().strip().rstrip()] *)
Definition shell_text (w : World) (k : nat) (cmd : string) : M string :=
  out ← check_output w k cmd;
  ret (Str.rstrip (Str.strip (Str.decode out))).

(** The five assignments of lines 34 to 78, each with a process of its own. *)
Definition module_load (w : World) : M Globals :=
  version ← shell_text w 0 VERSION_CMD;
  build_date ← shell_text w 1 BUILD_DATE_CMD;
  git_commit ← shell_text w 2 GIT_COMMIT_CMD;
  git_tree_state ← shell_text w 3 GIT_TREE_STATE_CMD;
  git_tag ← shell_text w 4 GIT_TAG_CMD;
  ret {| VERSION := version; BUILD_DATE := build_date; GIT_COMMIT := git_commit;
         GIT_TREE_STATE := git_tree_state; GIT_TAG := git_tag |}.

(** The value [extract_files] returns, from the results of its two scans:
    [list(set(included) - set(excluded))], then the two [endswith] filters.
    The order of a list made from a set is unspecified; [elements] fixes one. *)
Definition extract_files_of (included excluded : list string) : list string :=
  let test_files :=
    elements ((list_to_set included : gset string) ∖ list_to_set excluded) in
  let test_files :=
    List.filter (λ file, negb (Str.endswith file "suite_test.go")) test_files in
  let test_files :=
    List.filter (λ file, negb (Str.endswith file "e2e_helper.go")) test_files in
  test_files.

Definition extract_files (w : World) : M (list string) :=
  included ← glob w EXTRACT_GLOB_PATH;
  excluded ← glob w EXCLUDE_GLOB_PATH;
  ret (extract_files_of included excluded).

(** The positions [i] of [range(n)] with [i % ci_total == ci_index]. *)
Definition shard_indices (n : nat) (ci_index ci_total : Z) : list nat :=
  List.filter (λ i : nat, Z.of_nat i mod ci_total =? ci_index) (seq 0 n).

(** [[files[i] for i in range(len(files)) if i % ci_total == ci_index]] for a
    non-zero [ci_total].  Every position is below [len(files)], so no [files[i]]
    is out of range. *)
Definition shard (files : list string) (ci_index ci_total : Z) : list string :=
  omap (λ i : nat, files !! i) (shard_indices (length files) ci_index ci_total).

(** The comprehension evaluates [i % ci_total] for [i = 0] as soon as the list
    has an element: a zero [ci_total] raises there. *)
Definition desc_run_of (files : list string) (ci_index ci_total : Z) : M (list string) :=
  match files with
  | [] => ret []
  | _ :: _ => if ci_total =? 0 then raise ZeroDivisionError
              else ret (shard files ci_index ci_total)
  end.

(** [Literal["safe", "import"]] and the text of each value. *)
Inductive Mode : Type := safe | import.

Definition mode_str (mode : Mode) : string :=
  match mode with safe => "safe" | import => "import" end.

Definition FOCUS_FLAG : string := "--focus-file".

(** [f'--focus-file "{decs}" '] *)
Definition focus_file (decs : string) : string :=
  FOCUS_FLAG +:+ " " +:+ Str.dq +:+ decs +:+ Str.dq +:+ " ".

Definition desc_regex_of (desc_run : list string) : string :=
  Str.join (focus_file <$> desc_run).

(** The gap a backslash at the end of a line leaves inside the f-string: the
    blank before the backslash and the twelve that indent the next line. *)
Definition GAP : string := "             ".

Definition ldflag (name value : string) : string :=
  "-X " +:+ ROOT +:+ "/pkg/version." +:+ name +:+ "=" +:+ value.

Definition cmd_of (g : Globals) (ci_index : Z) (mode : Mode) (desc_regex : string) : string :=
  "ginkgo run -r --ldflags " +:+ Str.dq +:+ "-s -w "
  +:+ ldflag "version" (VERSION g) +:+ GAP
  +:+ ldflag "buildDate" (BUILD_DATE g) +:+ GAP
  +:+ ldflag "gitCommit" (GIT_COMMIT g) +:+ GAP
  +:+ ldflag "gitTreeState" (GIT_TREE_STATE g) +:+ GAP
  +:+ ldflag "gitTag" (GIT_TAG g) +:+ GAP
  +:+ ldflag "developmentFlag" "true" +:+ GAP
  +:+ ldflag "ghaBuildMode" (mode_str mode) +:+ Str.dq +:+ GAP
  +:+ "--cover --covermode atomic --coverprofile e2e-" +:+ Str.of_int ci_index
  +:+ "-coverage.out" +:+ GAP
  +:+ "--coverpkg " +:+ ROOT +:+ "/pkg/... " +:+ desc_regex
  +:+ " -v --timeout 15m --race ./e2e/...".

(** [os.environ.copy()] with the two assignments, in the order of the source. *)
Definition proc_env_of (w : World) (g : Globals) : gmap string string :=
  <["ENVD_ANALYTICS" := "false"]> (<["GIT_LATEST_TAG" := GIT_TAG g]> (os_environ w)).

Definition run_test (w : World) (g : Globals)
    (files : list string) (ci_index ci_total : Z) (mode : Mode) : M unit :=
  desc_run ← desc_run_of files ci_index ci_total;
  let desc_regex := desc_regex_of desc_run in
  let cmd := cmd_of g ci_index mode desc_regex in
  let proc_env := proc_env_of w g in
  returncode ← subprocess_run w cmd proc_env;
  if negb (returncode =? 0)
  then raise (RuntimeError ("ginkgo test failed: return code " +:+ Str.of_int returncode))
  else ret tt.

Definition bad_argument (ci_index ci_total : Z) : string :=
  "bad argument ci_index " +:+ Str.of_int ci_index +:+ " and ci_total "
  +:+ Str.of_int ci_total +:+ ", should be 0 <= ci_index < ci_total".

(** [main()]: the parser of lines 142 to 152 (two positional arguments and
    the flag --export-cache) reads the command line, then lines 155 to 174. *)
Definition main (w : World) (g : Globals) (argv : list string) : M unit :=
  args ← parse_args w argv;
  ci_index ← int w (ci_index_arg args);
  ci_total ← int w (ci_total_arg args);
  let mode := if export_cache args then safe else import in
  if (ci_index >=? ci_total) || (ci_index <? 0) || (ci_total <=? 0)
  then raise (RuntimeError (bad_argument ci_index ci_total))
  else
    test_files ← extract_files w;
    let test_files := sorted test_files in
    run_test w g test_files ci_index ci_total mode.

(** Running the script with the arguments [argv] of the command line: the
    module is loaded, then [main()] is called. *)
Definition script (w : World) (argv : list string) : M unit :=
  g ← module_load w; main w g argv.

(** ** A concrete world, to run the script on

    The file system is the list of the paths that exist below the working
    directory.  [glob] keeps those a pattern matches, component by component:
    [*] is any run of characters, [?] any one character, a component [**] any
    number of directories, and a name that starts with a dot is matched only
    by a component that starts with a dot. *)

Module Demo.

Fixpoint split_path (s : string) : list string :=
  match s with
  | EmptyString => [EmptyString]
  | String c s' =>
      if Ascii.eqb c "/" then EmptyString :: split_path s'
      else match split_path s' with
           | [] => [String c EmptyString]
           | h :: t => String c h :: t
           end
  end.

Fixpoint fnmatch (pat name : string) : bool :=
  match pat with
  | EmptyString => match name with EmptyString => true | _ => false end
  | String p pat' =>
      if Ascii.eqb p "*" then
        (fix star (name : string) : bool :=
           fnmatch pat' name
           || match name with
              | EmptyString => false
              | String _ name' => star name'
              end) name
      else match name with
           | EmptyString => false
           | String c name' =>
               (Ascii.eqb p "?" || Ascii.eqb p c) && fnmatch pat' name'
           end
  end.

Definition hidden (name : string) : bool := Str.startswith name ".".

Definition component_match (pat name : string) : bool :=
  (negb (hidden name) || hidden pat) && fnmatch pat name.

Fixpoint path_match (pat path : list string) : bool :=
  match pat with
  | [] => match path with [] => true | _ => false end
  | p :: pat' =>
      if String.eqb p "**" then
        (fix deeper (path : list string) : bool :=
           path_match pat' path
           || match path with
              | [] => false
              | d :: path' => negb (hidden d) && deeper path'
              end) path
      else match path with
           | [] => false
           | c :: path' => component_match p c && path_match pat' path'
           end
  end.

Definition glob_paths (disk : list string) (pattern : string) : list string :=
  List.filter (λ path, path_match (split_path pattern) (split_path path)) disk.

(** The shell: git and the clock answer with a line of text. *)
Definition shell (tag commit date : string) (cmd : string) : Z * string :=
  let nl := String (Ascii.ascii_of_nat 10) EmptyString in
  if String.eqb cmd VERSION_CMD then (0, tag +:+ nl)
  else if String.eqb cmd BUILD_DATE_CMD then (0, date +:+ nl)
  else if String.eqb cmd GIT_COMMIT_CMD then (0, commit +:+ nl)
  else if String.eqb cmd GIT_TAG_CMD then (0, tag +:+ nl)
  else (127, EmptyString).

(** [int(s)] on plain decimal literals. *)
Definition parse_int (s : string) : option Z :=
  Z.of_int <$> NilZero.int_of_string s.

Definition disk : list string :=
  [ "e2e/v0/cli/init_test.go"; "e2e/v0/cli/cli_suite_test.go";
    "e2e/v0/docs/quick_start_test.go"; "e2e/v0/docs/docs_suite_test.go";
    "e2e/v0/e2e_helper.go"; "e2e/v0/language/python_test.go";
    "e2e/v1/language/r_test.go"; "e2e/v1/docs/complex_test.go";
    "e2e/v0/cli/README.md"; "pkg/version/version.go" ].

Definition environ : gmap string string :=
  <["PATH" := "/usr/local/go/bin:/usr/bin"]> (<["ENVD_ANALYTICS" := "true"]> ∅).

(** A word argparse reads as a positional argument: no dash in front, or a
    negative number. *)
Definition positional (word : string) : bool :=
  match word with
  | String c rest =>
      negb (Ascii.eqb c "-")
      || (negb (String.eqb rest EmptyString)
          && forallb (λ d, (48 <=? Ascii.nat_of_ascii d)%nat
                           && (Ascii.nat_of_ascii d <=? 57)%nat)
                     (String.list_ascii_of_string rest))
  | EmptyString => true
  end.

(** argparse for the parser of [main], on command lines made of -h, --help,
    --export-cache and positional words: the help ends the process with 0,
    anything but two positional words with 2.  Abbreviated options are not
    read here. *)
Definition parse_argv (argv : list string) : Z + Namespace :=
  if existsb (λ word, String.eqb word "-h" || String.eqb word "--help") argv
  then inl 0
  else
    let words := List.filter (λ word, negb (String.eqb word "--export-cache")) argv in
    if forallb positional words then
      match words with
      | [ci_index; ci_total] =>
          inr {| ci_index_arg := ci_index; ci_total_arg := ci_total;
                 export_cache := existsb (String.eqb "--export-cache") argv |}
      | _ => inl 2
      end
    else inl 2.

(** A world whose test runner exits with [returncode]. *)
Definition world (tag : string) (returncode : Z) : World :=
  {| sh_output := λ _, shell tag "8d4f1c2" "2022-11-04T08:30:00Z";
     fs_glob := glob_paths disk;
     os_environ := environ;
     sh_run := λ _ _, returncode;
     builtin_int := parse_int;
     argparse := parse_argv |}.

(** The command line with the two positional arguments, and its namespace. *)
Definition args (ci_index ci_total : string) : list string := [ci_index; ci_total].

Definition namespace (ci_index ci_total : string) : Namespace :=
  {| ci_index_arg := ci_index; ci_total_arg := ci_total; export_cache := false |}.

(** The runner passes, the runner fails with 1, and a repository whose
    latest tag has the text of the focus flag in its name. *)
Definition passing : World := world "v0.3.1" 0.
Definition failing : World := world "v0.3.1" 1.
Definition flag_tag : World := world "v0--focus-file" 0.

Definition five_files : list string := ["a.go"; "b.go"; "c.go"; "d.go"; "e.go"].

End Demo.

(** ** Names for what the properties speak of *)

(** The list [main] hands to [run_test]: [sorted(extract_files())]. *)
Definition test_files_of (w : World) : list string :=
  sorted (extract_files_of (fs_glob w EXTRACT_GLOB_PATH) (fs_glob w EXCLUDE_GLOB_PATH)).

(** The mode [main] chooses: safe with --export-cache, import without. *)
Definition mode_of (args : Namespace) : Mode :=
  if export_cache args then safe else import.

(** The range [main] accepts. *)
Definition valid (ci_index ci_total : Z) : Prop := 0 ≤ ci_index < ci_total ∧ 0 < ci_total.

Global Instance valid_dec (ci_index ci_total : Z) : Decision (valid ci_index ci_total).
Proof. unfold valid. apply _. Defined.

(** The message of the error [run_test] raises for a failed runner. *)
Definition return_code_message (returncode : Z) : string :=
  "ginkgo test failed: return code " +:+ Str.of_int returncode.

(** The trimmed text a command prints as the [k]-th process, as the module
    load reads it. *)
Definition text_of (w : World) (k : nat) (cmd : string) : string :=
  Str.rstrip (Str.strip (Str.decode (snd (sh_output w k cmd)))).

(** The commands of the module load, in the order they are run. *)
Definition load_queries : list string :=
  [VERSION_CMD; BUILD_DATE_CMD; GIT_COMMIT_CMD; GIT_TREE_STATE_CMD; GIT_TAG_CMD].

(** The globals a successful module load defines. *)
Definition globals_of (w : World) : Globals :=
  {| VERSION := text_of w 0 VERSION_CMD;
     BUILD_DATE := text_of w 1 BUILD_DATE_CMD;
     GIT_COMMIT := text_of w 2 GIT_COMMIT_CMD;
     GIT_TREE_STATE := text_of w 3 GIT_TREE_STATE_CMD;
     GIT_TAG := text_of w 4 GIT_TAG_CMD |}.

(** The events that start a child process. *)
Definition spawns_process (ev : Event) : bool :=
  match ev with
  | CheckOutput _ | Run _ _ => true
  | GlobScan _ => false
  end.

(** The characters 0 to 9. *)
Definition is_digit (c : ascii) : bool :=
  let n := Ascii.nat_of_ascii c in (48 <=? n)%nat && (n <=? 57)%nat.

(** The command of a job in cache-importing mode, for the files of a world. *)
Definition demo_cmd (w : World) (ci_index ci_total : Z) : string :=
  cmd_of (globals_of w) ci_index import
         (desc_regex_of (shard (test_files_of w) ci_index ci_total)).

(** The command up to the end of the double-quoted value of --ldflags, which
    holds every interpolated metadata value. *)
Definition ldflags_part (g : Globals) (mode : Mode) : string :=
  "ginkgo run -r --ldflags " +:+ Str.dq +:+ "-s -w "
  +:+ ldflag "version" (VERSION g) +:+ GAP
  +:+ ldflag "buildDate" (BUILD_DATE g) +:+ GAP
  +:+ ldflag "gitCommit" (GIT_COMMIT g) +:+ GAP
  +:+ ldflag "gitTreeState" (GIT_TREE_STATE g) +:+ GAP
  +:+ ldflag "gitTag" (GIT_TAG g) +:+ GAP
  +:+ ldflag "developmentFlag" "true" +:+ GAP
  +:+ ldflag "ghaBuildMode" (mode_str mode) +:+ Str.dq.

(** The rest of the command: the flags the runner is given after --ldflags. *)
Definition runner_flags (ci_index : Z) (desc_regex : string) : string :=
  GAP +:+ "--cover --covermode atomic --coverprofile e2e-" +:+ Str.of_int ci_index
  +:+ "-coverage.out" +:+ GAP
  +:+ "--coverpkg " +:+ ROOT +:+ "/pkg/... " +:+ desc_regex
  +:+ " -v --timeout 15m --race ./e2e/...".

(** The exit status of the [k]-th command of the module load. *)
Definition query_status (w : World) (k : nat) : Z :=
  match load_queries !! k with
  | Some cmd => fst (sh_output w k cmd)
  | None => 0
  end.

(** The number of positions below [n] that job [ci_index] of [ci_total] takes. *)
Definition shard_size (n : nat) (ci_index ci_total : Z) : nat :=
  Z.to_nat ((Z.of_nat n + ci_total - 1 - ci_index) / ci_total).

(** The position of the [j]-th file of job [ci_index]. *)
Definition shard_position (ci_index ci_total : Z) (j : nat) : nat :=
  Z.to_nat (ci_index + Z.of_nat j * ci_total).

(** The coverage file the command of a job names. *)
Definition coverprofile_of (ci_index : Z) : string :=
  "e2e-" +:+ Str.of_int ci_index +:+ "-coverage.out".



(** The concrete world in a repository without a tag: the two git describe
    commands that need one fail with 128. *)
Definition untagged : World :=
  {| sh_output := λ k cmd,
       if String.eqb cmd GIT_TAG_CMD then (128, EmptyString)
       else sh_output Demo.passing k cmd;
     fs_glob := fs_glob Demo.passing;
     os_environ := os_environ Demo.passing;
     sh_run := sh_run Demo.passing;
     builtin_int := builtin_int Demo.passing;
     argparse := argparse Demo.passing |}.

(** The concrete world with a commit made by someone else between the third
    and the fourth process of the module load. *)
Definition head_moved : World :=
  {| sh_output := λ k cmd,
       if (3 <=? k)%nat && String.eqb cmd GIT_COMMIT_CMD
       then (0, "a1b2c3d" +:+ String (Ascii.ascii_of_nat 10) EmptyString)
       else sh_output Demo.passing k cmd;
     fs_glob := fs_glob Demo.passing;
     os_environ := os_environ Demo.passing;
     sh_run := sh_run Demo.passing;
     builtin_int := builtin_int Demo.passing;
     argparse := argparse Demo.passing |}.

(** The concrete world with the scans answering in another order, and twice. *)
Definition reordered : World :=
  {| sh_output := sh_output Demo.passing;
     fs_glob := λ pattern,
       reverse (fs_glob Demo.passing pattern) ++ fs_glob Demo.passing pattern;
     os_environ := os_environ Demo.passing;
     sh_run := sh_run Demo.passing;
     builtin_int := builtin_int Demo.passing;
     argparse := argparse Demo.passing |}.

(** * Properties *)

(** ** Strings *)

Module StrFacts.
Import Str.

Lemma app_cons (x : ascii) (a b : string) : String x a +:+ b = String x (a +:+ b).
Proof. reflexivity. Qed.

Lemma app_nil_l (b : string) : EmptyString +:+ b = b.
Proof. reflexivity. Qed.

Lemma app_nil_r (a : string) : a +:+ EmptyString = a.
Proof. induction a as [|x a IH]; [done | by rewrite app_cons, IH]. Qed.

Lemma app_assoc (a b c : string) : (a +:+ b) +:+ c = a +:+ b +:+ c.
Proof. induction a as [|x a IH]; [done | by rewrite !app_cons, IH]. Qed.

Lemma startswith_spec (s p : string) :
  startswith s p = true ↔ ∃ t, s = p +:+ t.
Proof.
  revert s; induction p as [|a p IH]; intros s; simpl.
  - split; [intros _; by exists s | done].
  - destruct s as [|b s]; simpl.
    + split; [done | intros [t Ht]; discriminate].
    + destruct (Ascii.eqb_spec a b) as [->|Hne].
      * rewrite IH. split; intros [t Ht]; exists t; rewrite ?app_cons in *; congruence.
      * split; [done | intros [t Ht]; rewrite app_cons in Ht; congruence].
Qed.

Lemma endswith_spec (s suffix : string) :
  endswith s suffix = true ↔ ∃ pre, s = pre +:+ suffix.
Proof.
  induction s as [|c s IH]; cbn [endswith].
  - destruct (String.eqb_spec EmptyString suffix) as [<-|Hne].
    + split; [intros _; by exists EmptyString | done].
    + split; [done |]. intros [pre Hpre]. destruct pre; [| discriminate].
      by rewrite app_nil_l in Hpre.
  - destruct (String.eqb_spec (String c s) suffix) as [<-|Hne].
    + split; [intros _; by exists EmptyString | done].
    + rewrite IH. split.
      * intros [pre ->]. by exists (String c pre).
      * intros [pre Hpre]. destruct pre as [|x pre].
        -- by rewrite app_nil_l in Hpre.
        -- rewrite app_cons in Hpre. exists pre. congruence.
Qed.

Lemma contains_cons (c : ascii) (hay needle : string) :
  contains (String c hay) needle
  = startswith (String c hay) needle || contains hay needle.
Proof. simpl. by destruct (startswith _ _). Qed.

Lemma contains_spec (hay needle : string) :
  contains hay needle = true ↔ ∃ pre post, hay = pre +:+ needle +:+ post.
Proof.
  induction hay as [|c hay IH].
  - simpl. destruct (startswith EmptyString needle) eqn:Hs.
    + apply startswith_spec in Hs as [t Ht]. split; [intros _ | done].
      by exists EmptyString, t.
    + split; [done |]. intros (pre & post & H).
      destruct pre; [| discriminate]. rewrite app_nil_l in H.
      assert (startswith EmptyString needle = true) by (apply startswith_spec; eauto).
      congruence.
  - rewrite contains_cons, orb_true_iff, IH, startswith_spec. split.
    + intros [[t Ht] | (pre & post & ->)].
      * by exists EmptyString, t.
      * by exists (String c pre), post.
    + intros (pre & post & H). destruct pre as [|x pre].
      * left. by exists post.
      * right. rewrite app_cons in H. exists pre, post. congruence.
Qed.

Lemma contains_refl (s : string) : contains s s = true.
Proof.
  apply contains_spec. exists EmptyString, EmptyString.
  by rewrite app_nil_l, app_nil_r.
Qed.

Lemma contains_app_l (a b needle : string) :
  contains a needle = true → contains (a +:+ b) needle = true.
Proof.
  rewrite !contains_spec. intros (pre & post & ->). exists pre, (post +:+ b).
  by rewrite !app_assoc.
Qed.

Lemma contains_app_r (a b needle : string) :
  contains b needle = true → contains (a +:+ b) needle = true.
Proof.
  rewrite !contains_spec. intros (pre & post & ->). exists (a +:+ pre), post.
  by rewrite !app_assoc.
Qed.

Lemma contains_cons_r (c : ascii) (b needle : string) :
  contains b needle = true → contains (String c b) needle = true.
Proof. intros H. rewrite contains_cons, H. apply orb_true_r. Qed.

Lemma contains_trans (a b c : string) :
  contains a b = true → contains b c = true → contains a c = true.
Proof.
  rewrite !contains_spec. intros (pre & post & ->) (pre' & post' & ->).
  exists (pre +:+ pre'), (post' +:+ post). by rewrite !app_assoc.
Qed.

Lemma startswith_app_sep (a b needle : string) (c : ascii) :
  occurs c needle = false →
  startswith (a +:+ String c b) needle = true → startswith a needle = true.
Proof.
  revert needle; induction a as [|x a IH]; intros [|y needle];
    rewrite ?app_cons, ?app_nil_l; simpl; try done.
  - rewrite (Ascii.eqb_sym c y). by destruct (Ascii.eqb y c).
  - destruct (Ascii.eqb y x); [| done].
    intros [_ Hocc]%orb_false_iff. by apply IH.
Qed.

(** An occurrence of the needle cannot run over a character it does not have. *)
Lemma contains_app_sep (a b needle : string) (c : ascii) :
  occurs c needle = false →
  contains (a +:+ String c b) needle = true →
  contains a needle = true ∨ contains b needle = true.
Proof.
  intros Hocc. induction a as [|x a IH].
  - rewrite app_nil_l, contains_cons. destruct needle as [|y needle]; [by left |].
    simpl in Hocc. apply orb_false_iff in Hocc as [Hcy _].
    simpl startswith. rewrite (Ascii.eqb_sym y c), Hcy. by right.
  - rewrite app_cons, !contains_cons, !orb_true_iff. intros [Hs | H].
    + left; left. rewrite <- app_cons in Hs. by eapply startswith_app_sep.
    + destruct (IH H) as [Ha | Hb]; [left; by right | by right].
Qed.

(** Characters the needle does not have can be skipped. *)
Lemma contains_skip (s rest needle : string) :
  needle ≠ EmptyString →
  (∀ c, occurs c s = true → occurs c needle = false) →
  contains (s +:+ rest) needle = contains rest needle.
Proof.
  intros Hne. induction s as [|x s IH]; intros Hclean; [done |].
  rewrite app_cons, contains_cons.
  destruct needle as [|y needle]; [done |].
  assert (Ascii.eqb y x = false) as Hyx.
  { specialize (Hclean x). simpl in Hclean. rewrite Ascii.eqb_refl in Hclean.
    apply orb_false_iff in Hclean as [H _]; [| done]. by rewrite Ascii.eqb_sym. }
  simpl startswith. rewrite Hyx. simpl. apply IH.
  intros c Hc. apply Hclean. simpl. by rewrite Hc, orb_true_r.
Qed.

End StrFacts.

(** ** Sharding *)

Section shard_facts.
Context (files : list string) (ci_total : Z).

Lemma elem_of_shard_indices (n i : nat) (ci_index : Z) :
  i ∈ shard_indices n ci_index ci_total
  ↔ (i < n)%nat ∧ Z.of_nat i mod ci_total = ci_index.
Proof.
  unfold shard_indices. rewrite list_elem_of_In, filter_In, <- list_elem_of_In.
  rewrite elem_of_seq, Z.eqb_eq. intuition lia.
Qed.

Lemma elem_of_shard (x : string) (ci_index : Z) :
  x ∈ shard files ci_index ci_total
  ↔ ∃ i : nat, files !! i = Some x ∧ Z.of_nat i mod ci_total = ci_index.
Proof.
  unfold shard. rewrite list_elem_of_omap. split.
  - intros (i & [_ Hi]%elem_of_shard_indices & Hx). eauto.
  - intros (i & Hx & Hi). exists i. split; [| done].
    apply elem_of_shard_indices. split; [| done]. by eapply lookup_lt_Some.
Qed.

(** Reading every position of [range(len(files))] gives the list back. *)
Lemma omap_lookup_seq (l : list string) :
  omap (λ i : nat, l !! i) (seq 0 (length l)) = l.
Proof.
  induction l as [|x l IH]; [done |].
  cbn [length seq]. rewrite <- fmap_S_seq. simpl. f_equal.
  etransitivity; [| exact IH]. clear IH. generalize (seq 0 (length l)) as P.
  induction P as [|i P IHP]; [done |]. simpl.
  change (list_fmap nat nat S P) with (S <$> P). rewrite IHP. reflexivity.
Qed.

(** The files of the positions [P] that job [k] takes. *)
Let pick (P : list nat) (k : Z) : list string :=
  omap (λ i : nat, files !! i)
       (List.filter (λ i : nat, Z.of_nat i mod ci_total =? k) P).

Lemma concat_single (K : list Z) (m : Z) (L : list string) :
  NoDup K → m ∈ K →
  concat ((λ k, if m =? k then L else []) <$> K) = L.
Proof.
  induction K as [|k K IH]; intros Hnd Hin; [by apply elem_of_nil in Hin |].
  apply NoDup_cons in Hnd as [Hk Hnd]. rewrite fmap_cons. cbn [concat].
  destruct (Z.eqb_spec m k) as [->|Hne].
  - rewrite (proj2 (concat_nil_Forall _)); [by rewrite app_nil_r |].
    apply Forall_fmap, Forall_forall. intros k' Hk'. simpl.
    destruct (Z.eqb_spec k k') as [->|]; done.
  - apply elem_of_cons in Hin as [? | Hin]; [done |]. by rewrite IH.
Qed.

Lemma concat_app_pointwise (K : list Z) (a b : Z → list string) :
  concat ((λ k, a k ++ b k) <$> K) ≡ₚ concat (a <$> K) ++ concat (b <$> K).
Proof.
  induction K as [|k K IH]; [done |]. rewrite !fmap_cons. cbn [concat]. rewrite IH.
  rewrite <- !(assoc (++)). f_equiv. rewrite !(assoc (++)). f_equiv.
  apply Permutation_app_comm.
Qed.

Lemma concat_pick (K : list Z) (P : list nat) :
  NoDup K → (∀ i : nat, i ∈ P → Z.of_nat i mod ci_total ∈ K) →
  concat (pick P <$> K) ≡ₚ omap (λ i : nat, files !! i) P.
Proof.
  intros Hnd. induction P as [|i P IH]; intros HP.
  - unfold pick. simpl. rewrite (proj2 (concat_nil_Forall _)); [done |].
    by apply Forall_fmap, Forall_forall.
  - transitivity
      (concat ((λ k, (if Z.of_nat i mod ci_total =? k
                      then option_list (files !! i) else []) ++ pick P k) <$> K)).
    { apply reflexive_eq. f_equal. apply list_fmap_ext. intros _ k _.
      unfold pick. simpl. destruct (Z.of_nat i mod ci_total =? k); [| done].
      simpl. by destruct (files !! i). }
    rewrite concat_app_pointwise, concat_single, IH.
    + simpl. by destruct (files !! i).
    + intros j Hj. apply HP. by right.
    + done.
    + apply HP. by left.
Qed.

(** The shards of the jobs [0 .. ci_total - 1], one after the other, are the
    file list again, up to the order. *)
Lemma shards_Permutation :
  0 < ci_total →
  concat ((λ k, shard files k ci_total) <$> seqZ 0 ci_total) ≡ₚ files.
Proof.
  intros Hpos.
  transitivity (omap (λ i : nat, files !! i) (seq 0 (length files)));
    [| by rewrite omap_lookup_seq].
  apply (concat_pick (seqZ 0 ci_total) (seq 0 (length files))).
  - apply NoDup_seqZ.
  - intros i _. apply elem_of_seqZ. pose proof (Z.mod_pos_bound (Z.of_nat i) ci_total Hpos). lia.
Qed.

(** A job index at or beyond the number of files selects nothing. *)
Lemma shard_beyond (ci_index : Z) :
  0 ≤ ci_index < ci_total → Z.of_nat (length files) ≤ ci_index →
  shard files ci_index ci_total = [].
Proof.
  intros Hvalid Hlen. apply elem_of_nil_inv. intros x (i & Hi & Hmod)%elem_of_shard.
  apply lookup_lt_Some in Hi.
  pose proof (Z.mod_le (Z.of_nat i) ci_total). lia.
Qed.

End shard_facts.

(** C1.  For a positive [ci_total], the shards of the jobs [0 .. ci_total - 1]
    split the file list: every position of the list is taken by exactly one
    job, the job [i mod ci_total]; the shards together are the file list, up
    to the order; every file is in some shard; and when no path is listed
    twice (as in the list [main] passes), no path is in two shards. *)
Theorem shards_partition (files : list string) (ci_total : Z) :
  0 < ci_total →
  (∀ i : nat, (i < length files)%nat →
     0 ≤ Z.of_nat i mod ci_total < ci_total
     ∧ ∀ k, i ∈ shard_indices (length files) k ci_total ↔ k = Z.of_nat i mod ci_total)
  ∧ concat ((λ k, shard files k ci_total) <$> seqZ 0 ci_total) ≡ₚ files
  ∧ (∀ x, x ∈ files ↔ ∃ k, 0 ≤ k < ci_total ∧ x ∈ shard files k ci_total)
  ∧ (NoDup files →
     ∀ j k x, x ∈ shard files j ci_total → x ∈ shard files k ci_total → j = k).
Proof.
  intros Hpos. repeat split.
  - by apply Z.mod_pos_bound.
  - by apply Z.mod_pos_bound.
  - intros [_ Hk]%elem_of_shard_indices. done.
  - intros ->. by apply elem_of_shard_indices.
  - by apply shards_Permutation.
  - intros (i & Hi)%list_elem_of_lookup. exists (Z.of_nat i mod ci_total).
    split; [by apply Z.mod_pos_bound |]. apply elem_of_shard. eauto.
  - intros (k & _ & (i & Hi & _)%elem_of_shard). by eapply list_elem_of_lookup_2.
  - intros Hnd j k x (i & Hi & <-)%elem_of_shard (i' & Hi' & <-)%elem_of_shard.
    by rewrite (NoDup_lookup _ _ _ _ Hnd Hi Hi').
Qed.

Lemma shards_partition_witness :
  0 < 2
  ∧ concat ((λ k, shard Demo.five_files k 2) <$> seqZ 0 2) ≡ₚ Demo.five_files
  ∧ (NoDup Demo.five_files →
     ∀ j k x, x ∈ shard Demo.five_files j 2 → x ∈ shard Demo.five_files k 2 → j = k).
Proof.
  assert (0 < 2) as Hpos by done.
  split; [exact Hpos |].
  pose proof (shards_partition Demo.five_files 2 Hpos) as (_ & Hperm & _ & Hdisj).
  exact (conj Hperm Hdisj).
Defined.

(** C4.  The sorted list a.go .. e.go and two jobs: job 0 gets a, c and e,
    job 1 gets b and d, and the list is already in the order [sorted] gives. *)
Theorem shard_five_files :
  sorted Demo.five_files = Demo.five_files
  ∧ shard Demo.five_files 0 2 = ["a.go"; "c.go"; "e.go"]
  ∧ shard Demo.five_files 1 2 = ["b.go"; "d.go"]
  ∧ desc_run_of Demo.five_files 0 2 = ret ["a.go"; "c.go"; "e.go"]
  ∧ desc_run_of Demo.five_files 1 2 = ret ["b.go"; "d.go"].
Proof. repeat split; vm_compute; reflexivity. Qed.

(** ** File discovery *)

Lemma elem_of_extract_files_of (included excluded : list string) (file : string) :
  file ∈ extract_files_of included excluded
  ↔ file ∈ included ∧ (file ∉ excluded)
    ∧ (Str.endswith file "suite_test.go" = false)
    ∧ (Str.endswith file "e2e_helper.go" = false).
Proof.
  unfold extract_files_of.
  rewrite list_elem_of_In, !filter_In, <- list_elem_of_In, !negb_true_iff.
  rewrite elem_of_elements, elem_of_difference, !elem_of_list_to_set. tauto.
Qed.

Lemma NoDup_extract_files_of (included excluded : list string) :
  NoDup (extract_files_of included excluded).
Proof.
  unfold extract_files_of. apply NoDup_ListNoDup. do 2 apply List.NoDup_filter.
  apply NoDup_ListNoDup, NoDup_elements.
Qed.

Lemma extract_files_eq (w : World) :
  extract_files w
  = ([GlobScan EXTRACT_GLOB_PATH; GlobScan EXCLUDE_GLOB_PATH],
     inr (extract_files_of (fs_glob w EXTRACT_GLOB_PATH) (fs_glob w EXCLUDE_GLOB_PATH))).
Proof. reflexivity. Qed.

(** C5.  File discovery performs its two scans and returns exactly the paths
    of the inclusion scan that the exclusion scan did not return and that end
    in neither suite_test.go nor e2e_helper.go: no path of the exclusion
    pattern and no path with one of the two endings is in its result. *)
Theorem extract_files_excludes (w : World) :
  outcome (extract_files w)
  = inr (extract_files_of (fs_glob w EXTRACT_GLOB_PATH) (fs_glob w EXCLUDE_GLOB_PATH))
  ∧ ∀ file,
      file ∈ extract_files_of (fs_glob w EXTRACT_GLOB_PATH) (fs_glob w EXCLUDE_GLOB_PATH)
      ↔ file ∈ fs_glob w EXTRACT_GLOB_PATH
        ∧ (file ∉ fs_glob w EXCLUDE_GLOB_PATH)
        ∧ ¬ (∃ pre, file = pre +:+ "suite_test.go")
        ∧ ¬ (∃ pre, file = pre +:+ "e2e_helper.go").
Proof.
  split; [reflexivity |]. intros file.
  rewrite elem_of_extract_files_of, <- !StrFacts.endswith_spec, !not_true_iff_false.
  done.
Qed.

(** ** The two ways of [main] *)

Section main_facts.
Context (w : World) (g : Globals) (argv : list string) (args : Namespace).
Context (ci_index ci_total : Z).
Hypothesis Hargs : argparse w argv = inr args.
Hypothesis Hindex : builtin_int w (ci_index_arg args) = Some ci_index.
Hypothesis Htotal : builtin_int w (ci_total_arg args) = Some ci_total.

Lemma main_invalid :
  ¬ valid ci_index ci_total →
  main w g argv = raise (RuntimeError (bad_argument ci_index ci_total)).
Proof.
  intros Hbad. unfold main, parse_args, int. rewrite Hargs. cbn.
  rewrite Hindex, Htotal. cbn.
  destruct (_ || _ || _) eqn:Hguard; [done |].
  exfalso. apply Hbad. unfold valid.
  apply orb_false_iff in Hguard as [[H1 H2]%orb_false_iff H3]. lia.
Qed.

Lemma main_valid :
  valid ci_index ci_total →
  let run := run_test w g (test_files_of w) ci_index ci_total (mode_of args) in
  main w g argv
  = ([GlobScan EXTRACT_GLOB_PATH; GlobScan EXCLUDE_GLOB_PATH] ++ trace run,
     outcome run).
Proof.
  intros [Hrange Hpos]. unfold main, parse_args, int. rewrite Hargs. cbn.
  rewrite Hindex, Htotal. cbn.
  destruct (_ || _ || _) eqn:Hguard.
  - apply orb_true_iff in Hguard as [[H1|H2]%orb_true_iff|H3]; lia.
  - unfold test_files_of, mode_of. by destruct (run_test _ _ _ _ _ _).
Qed.

End main_facts.

(** ** Running the tests *)

Lemma run_test_eq (w : World) (g : Globals) (files : list string)
    (ci_index ci_total : Z) (mode : Mode) :
  files = [] ∨ ci_total ≠ 0 →
  let cmd := cmd_of g ci_index mode (desc_regex_of (shard files ci_index ci_total)) in
  let returncode := sh_run w cmd (proc_env_of w g) in
  run_test w g files ci_index ci_total mode
  = ([Run cmd (proc_env_of w g)],
     if returncode =? 0 then inr tt
     else inl (RuntimeError (return_code_message returncode))).
Proof.
  intros Hok. unfold run_test, desc_run_of.
  destruct files as [|file files'].
  - cbn. by destruct (sh_run _ _ _ =? 0).
  - destruct Hok as [? | Hne]; [done |].
    destruct (Z.eqb_spec ci_total 0) as [? | _]; [done |].
    cbn. by destruct (sh_run _ _ _ =? 0).
Qed.

(** A zero [ci_total] and a file to look at: the comprehension divides by zero
    and no child is started. *)
Lemma run_test_zero_total (w : World) (g : Globals) (file : string)
    (files : list string) (ci_index : Z) (mode : Mode) :
  run_test w g (file :: files) ci_index 0 mode = raise ZeroDivisionError.
Proof. reflexivity. Qed.

(** ** Loading the module *)

Lemma shell_text_eq (w : World) (k : nat) (cmd : string) :
  shell_text w k cmd
  = ([CheckOutput cmd],
     if fst (sh_output w k cmd) =? 0 then inr (text_of w k cmd)
     else inl (CalledProcessError (fst (sh_output w k cmd)) cmd)).
Proof.
  unfold shell_text, check_output, text_of.
  destruct (sh_output w k cmd) as [rc out]. cbn. by destruct (rc =? 0).
Qed.

(** The module load, by the first command that fails. *)
Lemma module_load_cases (w : World) :
  ((∀ k, query_status w k = 0)
   ∧ module_load w = (CheckOutput <$> load_queries, inr (globals_of w)))
  ∨ (∃ n cmd,
       load_queries !! n = Some cmd
       ∧ (∀ k, (k < n)%nat → query_status w k = 0)
       ∧ query_status w n ≠ 0
       ∧ module_load w
         = (CheckOutput <$> take (S n) load_queries,
            inl (CalledProcessError (query_status w n) cmd))).
Proof.
  assert (∀ n, (∀ k, (k < n)%nat → query_status w k = 0) →
               (5 ≤ n)%nat → ∀ k, query_status w k = 0) as Hall.
  { intros n Hbelow Hn k. destruct (decide (k < n)%nat) as [? | ?]; [by apply Hbelow |].
    unfold query_status. by rewrite (proj2 (lookup_ge_None load_queries k)) by (cbn; lia). }
  assert (∀ n, (∀ k, (k < n)%nat → query_status w k = 0) →
               query_status w n = 0 →
               ∀ k, (k < S n)%nat → query_status w k = 0) as Hstep.
  { intros n Hbelow Hn k Hk. destruct (decide (k = n)) as [-> | ?]; [done |].
    apply Hbelow. lia. }
  assert (∀ k, (k < 0)%nat → query_status w k = 0) as H0 by (intros k Hk; lia).
  unfold module_load. rewrite !shell_text_eq.
  destruct (Z.eqb_spec (fst (sh_output w 0 VERSION_CMD)) 0) as [E0 | E0];
    [| right; by exists 0%nat, VERSION_CMD].
  pose proof (Hstep 0%nat H0 E0) as H1.
  destruct (Z.eqb_spec (fst (sh_output w 1 BUILD_DATE_CMD)) 0) as [E1 | E1];
    [| right; by exists 1%nat, BUILD_DATE_CMD].
  pose proof (Hstep 1%nat H1 E1) as H2.
  destruct (Z.eqb_spec (fst (sh_output w 2 GIT_COMMIT_CMD)) 0) as [E2 | E2];
    [| right; by exists 2%nat, GIT_COMMIT_CMD].
  pose proof (Hstep 2%nat H2 E2) as H3.
  destruct (Z.eqb_spec (fst (sh_output w 3 GIT_TREE_STATE_CMD)) 0) as [E3 | E3];
    [| right; by exists 3%nat, GIT_TREE_STATE_CMD].
  pose proof (Hstep 3%nat H3 E3) as H4.
  destruct (Z.eqb_spec (fst (sh_output w 4 GIT_TAG_CMD)) 0) as [E4 | E4];
    [| right; by exists 4%nat, GIT_TAG_CMD].
  pose proof (Hstep 4%nat H4 E4) as H5.
  left. split; [| done]. by apply (Hall 5%nat).
Qed.

Lemma script_cases (w : World) (argv : list string) :
  script w argv
  = match module_load w with
    | (tr, inl e) => (tr, inl e)
    | (tr, inr g) => (tr ++ trace (main w g argv), outcome (main w g argv))
    end.
Proof.
  unfold script, mbind, M_bind, bind.
  destruct (module_load w) as [tr [e | g]]; [done |].
  by destruct (main w g argv).
Qed.

Lemma main_exit (w : World) (g : Globals) (argv : list string) (code : Z) :
  argparse w argv = inl code → main w g argv = raise (SystemExit code).
Proof. intros Hexit. unfold main, parse_args. by rewrite Hexit. Qed.

Lemma main_cases (w : World) (g : Globals) (argv : list string) :
  (∃ code, argparse w argv = inl code ∧ main w g argv = raise (SystemExit code))
  ∨ (∃ args s, argparse w argv = inr args ∧ main w g argv = raise (ValueError s))
  ∨ (∃ args ci_index ci_total,
       argparse w argv = inr args
       ∧ builtin_int w (ci_index_arg args) = Some ci_index
       ∧ builtin_int w (ci_total_arg args) = Some ci_total
       ∧ ¬ valid ci_index ci_total
       ∧ main w g argv = raise (RuntimeError (bad_argument ci_index ci_total)))
  ∨ (∃ args ci_index ci_total,
       argparse w argv = inr args
       ∧ builtin_int w (ci_index_arg args) = Some ci_index
       ∧ builtin_int w (ci_total_arg args) = Some ci_total
       ∧ valid ci_index ci_total
       ∧ main w g argv
         = ([GlobScan EXTRACT_GLOB_PATH; GlobScan EXCLUDE_GLOB_PATH]
              ++ trace (run_test w g (test_files_of w) ci_index ci_total (mode_of args)),
            outcome (run_test w g (test_files_of w) ci_index ci_total (mode_of args)))).
Proof.
  destruct (argparse w argv) as [code | args] eqn:Hargs;
    [left; exists code; split; [done | by apply main_exit] |].
  right.
  destruct (builtin_int w (ci_index_arg args)) as [ci_index|] eqn:Hindex;
    [| left; eexists args, _; split; [done |];
       unfold main, parse_args, int; rewrite Hargs; cbn; by rewrite Hindex].
  destruct (builtin_int w (ci_total_arg args)) as [ci_total|] eqn:Htotal;
    [| left; eexists args, _; split; [done |];
       unfold main, parse_args, int; rewrite Hargs; cbn; by rewrite Hindex, Htotal].
  right. destruct (decide (valid ci_index ci_total)) as [Hv | Hv].
  - right. exists args, ci_index, ci_total. do 4 (split; [done |]).
    by apply (main_valid w g argv args).
  - left. exists args, ci_index, ci_total. do 4 (split; [done |]).
    by apply (main_invalid w g argv args).
Qed.

(** The one way the script starts the test runner: the module loaded, argparse
    accepted the command line, the arguments are integers in range, and the
    command and the environment are the ones [run_test] builds for the shard
    of this job. *)
Lemma script_run_inv (w : World) (argv : list string) (cmd : string)
    (env : gmap string string) :
  Run cmd env ∈ trace (script w argv) →
  ∃ args ci_index ci_total,
    module_load w = (CheckOutput <$> load_queries, inr (globals_of w))
    ∧ argparse w argv = inr args
    ∧ builtin_int w (ci_index_arg args) = Some ci_index
    ∧ builtin_int w (ci_total_arg args) = Some ci_total
    ∧ valid ci_index ci_total
    ∧ cmd = cmd_of (globals_of w) ci_index (mode_of args)
              (desc_regex_of (shard (test_files_of w) ci_index ci_total))
    ∧ env = proc_env_of w (globals_of w)
    ∧ outcome (script w argv)
      = if sh_run w cmd env =? 0 then inr tt
        else inl (RuntimeError (return_code_message (sh_run w cmd env))).
Proof.
  rewrite script_cases.
  destruct (module_load_cases w) as [[_ Hload] | (n & c & _ & _ & _ & ->)];
    [rewrite Hload |]; cbn [trace outcome fst snd].
  2: { intros (? & ? & _)%list_elem_of_fmap. done. }
  destruct (main_cases w (globals_of w) argv)
    as [(code & _ & ->) | [(args & s & _ & ->)
        | [(args & i & t & _ & _ & _ & _ & ->) | (args & i & t & Ha & Hi & Ht & Hv & ->)]]];
    cbn [trace outcome fst snd raise]; rewrite ?app_nil_r.
  1, 2, 3: intros (? & ? & _)%list_elem_of_fmap; done.
  rewrite run_test_eq by (right; unfold valid in Hv; lia). cbn [trace outcome fst snd].
  rewrite !elem_of_app. intros [(? & ? & _)%list_elem_of_fmap | [Hin | Hin]].
  - done.
  - repeat (apply elem_of_cons in Hin as [? | Hin]; [done |]). by apply elem_of_nil in Hin.
  - apply list_elem_of_singleton in Hin. injection Hin as -> ->.
    by exists args, i, t.
Qed.

(** C6.  When the test runner the script started exits with a code [n] other
    than zero, the script ends with the runtime error whose message is the
    text "ginkgo test failed: return code " followed by [n] in decimal, and
    the interpreter exits with a non-zero status; when the runner exits with
    zero, the script ends without an error.  The code 1 is written "1". *)
Theorem child_exit_code (w : World) (argv : list string) (cmd : string)
    (env : gmap string string) :
  Run cmd env ∈ trace (script w argv) →
  (sh_run w cmd env ≠ 0 →
     outcome (script w argv)
     = inl (RuntimeError (return_code_message (sh_run w cmd env)))
     ∧ Str.contains (return_code_message (sh_run w cmd env))
                    (Str.of_int (sh_run w cmd env)) = true
     ∧ exit_status (outcome (script w argv)) ≠ 0)
  ∧ (sh_run w cmd env = 0 →
     outcome (script w argv) = inr tt ∧ exit_status (outcome (script w argv)) = 0)
  ∧ Str.of_int 1 = "1".
Proof.
  intros (_ & _ & _ & _ & _ & _ & _ & _ & _ & _ & ->)%script_run_inv.
  split; [| split; [| done]].
  - intros Hn. destruct (Z.eqb_spec (sh_run w cmd env) 0) as [? | _]; [done |].
    repeat split; [| done].
    apply StrFacts.contains_spec. eexists _, EmptyString.
    unfold return_code_message. by rewrite StrFacts.app_nil_r.
  - by intros ->.
Qed.

(** ** The environment of the child *)

Lemma run_test_trace_inv (w : World) (g : Globals) (files : list string)
    (ci_index ci_total : Z) (mode : Mode) (cmd : string) (env : gmap string string) :
  Run cmd env ∈ trace (run_test w g files ci_index ci_total mode) →
  cmd = cmd_of g ci_index mode (desc_regex_of (shard files ci_index ci_total))
  ∧ env = proc_env_of w g.
Proof.
  destruct (decide (files = [] ∨ ci_total ≠ 0)) as [Hok | Hbad].
  - rewrite run_test_eq by done. cbn [trace fst].
    intros Hin%list_elem_of_singleton. by injection Hin as -> ->.
  - destruct files as [|file files']; [by destruct Hbad; left |].
    assert (ci_total = 0) as -> by (destruct (decide (ci_total = 0)); [done | by destruct Hbad; right]).
    rewrite run_test_zero_total. by intros ?%elem_of_nil.
Qed.

(** C8.  The environment [run_test] passes to the child is the environment of
    the parent with ENVD_ANALYTICS set to "false" and GIT_LATEST_TAG set to the
    tag; every other variable has the value, or the absence, it has in the
    parent. *)
Theorem child_environment (w : World) (g : Globals) (files : list string)
    (ci_index ci_total : Z) (mode : Mode) (cmd : string) (env : gmap string string) :
  Run cmd env ∈ trace (run_test w g files ci_index ci_total mode) →
  env = <["ENVD_ANALYTICS" := "false"]> (<["GIT_LATEST_TAG" := GIT_TAG g]> (os_environ w))
  ∧ env !! "ENVD_ANALYTICS" = Some "false"
  ∧ env !! "GIT_LATEST_TAG" = Some (GIT_TAG g)
  ∧ ∀ name, name ≠ "ENVD_ANALYTICS" → name ≠ "GIT_LATEST_TAG" →
            env !! name = os_environ w !! name.
Proof.
  intros [_ ->]%run_test_trace_inv. unfold proc_env_of. split_and!.
  - done.
  - by rewrite lookup_insert_eq.
  - by rewrite lookup_insert_ne, lookup_insert_eq.
  - intros name H1 H2. by rewrite !lookup_insert_ne.
Qed.

(** ** Build metadata *)

Ltac str_assoc := rewrite ?StrFacts.app_assoc; reflexivity.



(** When the commit changes between the two processes, each global holds
    what its own process printed. *)
Example head_moved_globals :
  module_load head_moved = (CheckOutput <$> load_queries, inr (globals_of head_moved))
  ∧ GIT_COMMIT (globals_of head_moved) = "8d4f1c2"
  ∧ GIT_TREE_STATE (globals_of head_moved) = "a1b2c3d".
Proof. split_and!; vm_compute; reflexivity. Qed.

(** ** Argument validation *)

Lemma bad_argument_descriptive (ci_index ci_total : Z) :
  Str.contains (bad_argument ci_index ci_total) (Str.of_int ci_index) = true
  ∧ Str.contains (bad_argument ci_index ci_total) (Str.of_int ci_total) = true
  ∧ Str.contains (bad_argument ci_index ci_total)
                 "should be 0 <= ci_index < ci_total" = true.
Proof.
  unfold bad_argument. split_and!; apply StrFacts.contains_spec.
  - by eexists _, _.
  - exists ("bad argument ci_index " +:+ Str.of_int ci_index +:+ " and ci_total ").
    eexists. str_assoc.
  - exists ("bad argument ci_index " +:+ Str.of_int ci_index +:+ " and ci_total "
            +:+ Str.of_int ci_total +:+ ", ").
    exists EmptyString. rewrite StrFacts.app_nil_r. str_assoc.
Qed.

(** C3.  With integer arguments, [main] raises the bad-argument error, whose
    message names both values and the expected range, exactly when the pair
    is not within [0 <= ci_index < ci_total]; for a pair within the range it
    scans the files and starts the runner for the shard of the job. *)
Theorem argument_validation (w : World) (g : Globals) (argv : list string)
    (args : Namespace) (ci_index ci_total : Z) :
  argparse w argv = inr args →
  builtin_int w (ci_index_arg args) = Some ci_index →
  builtin_int w (ci_total_arg args) = Some ci_total →
  (outcome (main w g argv) = inl (RuntimeError (bad_argument ci_index ci_total))
   ↔ ¬ (0 ≤ ci_index < ci_total ∧ 0 < ci_total))
  ∧ (¬ (0 ≤ ci_index < ci_total ∧ 0 < ci_total) →
     main w g argv = raise (RuntimeError (bad_argument ci_index ci_total))
     ∧ Str.contains (bad_argument ci_index ci_total) (Str.of_int ci_index) = true
     ∧ Str.contains (bad_argument ci_index ci_total) (Str.of_int ci_total) = true
     ∧ Str.contains (bad_argument ci_index ci_total)
                    "should be 0 <= ci_index < ci_total" = true)
  ∧ (0 ≤ ci_index < ci_total ∧ 0 < ci_total →
     trace (main w g argv)
     = [GlobScan EXTRACT_GLOB_PATH; GlobScan EXCLUDE_GLOB_PATH;
        Run (cmd_of g ci_index (mode_of args)
               (desc_regex_of (shard (test_files_of w) ci_index ci_total)))
            (proc_env_of w g)]).
Proof.
  intros Hargs Hindex Htotal. fold (valid ci_index ci_total).
  assert (valid ci_index ci_total →
          main w g argv
          = ([GlobScan EXTRACT_GLOB_PATH; GlobScan EXCLUDE_GLOB_PATH;
              Run (cmd_of g ci_index (mode_of args)
                     (desc_regex_of (shard (test_files_of w) ci_index ci_total)))
                  (proc_env_of w g)],
             outcome (run_test w g (test_files_of w) ci_index ci_total (mode_of args))))
    as Hvalid.
  { intros Hv. rewrite (main_valid w g argv args ci_index ci_total Hargs Hindex Htotal Hv).
    cbn zeta. rewrite run_test_eq by (right; unfold valid in Hv; lia). reflexivity. }
  split_and!.
  - destruct (decide (valid ci_index ci_total)) as [Hv | Hv].
    + rewrite (Hvalid Hv). cbn [outcome snd].
      rewrite run_test_eq by (right; unfold valid in Hv; lia). cbn [outcome snd].
      split; [| done]. destruct (_ =? 0); [done |].
      unfold return_code_message, bad_argument. intros [=].
    + rewrite (main_invalid w g argv args ci_index ci_total Hargs Hindex Htotal Hv). done.
  - intros Hv. split; [by apply (main_invalid w g argv args) |]. apply bad_argument_descriptive.
  - intros Hv. by rewrite (Hvalid Hv).
Qed.

(** ** What runs before the validation *)

(** C2, as amended.  For integer arguments out of range, [main] raises the
    bad-argument error before it does anything else: no scan of the files and
    no test runner.  The only child processes of such a run are the metadata
    queries of the module load, which come before [main]: when the module
    loads, the run is the five queries followed by the error. *)
Theorem validation_precedes_work (w : World) (argv : list string) (args : Namespace)
    (ci_index ci_total : Z) :
  argparse w argv = inr args →
  builtin_int w (ci_index_arg args) = Some ci_index →
  builtin_int w (ci_total_arg args) = Some ci_total →
  ¬ (0 ≤ ci_index < ci_total ∧ 0 < ci_total) →
  (∀ g, main w g argv = ([], inl (RuntimeError (bad_argument ci_index ci_total))))
  ∧ (∀ ev, ev ∈ trace (script w argv) →
           ∃ cmd, ev = CheckOutput cmd ∧ cmd ∈ load_queries)
  ∧ (∀ tr g, module_load w = (tr, inr g) →
             script w argv
             = (CheckOutput <$> load_queries,
                inl (RuntimeError (bad_argument ci_index ci_total)))).
Proof.
  intros Hargs Hindex Htotal Hbad.
  assert (∀ g, main w g argv = ([], inl (RuntimeError (bad_argument ci_index ci_total))))
    as Hmain by (intros g; by apply (main_invalid w g argv args)).
  split_and!; [done | |].
  - rewrite script_cases.
    destruct (module_load_cases w) as [[_ ->] | (n & c & _ & _ & _ & ->)].
    + rewrite Hmain. cbn [trace fst]. rewrite app_nil_r.
      intros ev (cmd & -> & Hcmd)%list_elem_of_fmap. eauto.
    + cbn [trace fst]. intros ev (cmd & -> & Hcmd)%list_elem_of_fmap.
      exists cmd. split; [done |]. by eapply subseteq_take.
  - intros tr g Hload. rewrite script_cases, Hload, Hmain. cbn [trace outcome fst snd].
    rewrite app_nil_r.
    destruct (module_load_cases w) as [[_ Hload'] | (n & c & _ & _ & _ & Hfail)];
      congruence.
Qed.

(** ** The sorted list *)

Lemma sorted_Permutation (l : list string) : sorted l ≡ₚ l.
Proof. apply merge_sort_Permutation. Qed.

Lemma sorted_StronglySorted (l : list string) : StronglySorted String.le (sorted l).
Proof. apply StronglySorted_merge_sort; apply _. Qed.

(** Any sorted rearrangement of a list is the one [sorted] returns. *)
Lemma sorted_unique (l l' : list string) :
  l' ≡ₚ l → Sorted String.le l' → l' = sorted l.
Proof.
  intros Hperm Hsorted. apply (Sorted_unique String.le); [done | |].
  - apply Sorted_merge_sort; apply _.
  - by rewrite sorted_Permutation.
Qed.

(** The order is the lexicographic one, character by character. *)
Lemma string_le_cons (a b : ascii) (s t : string) :
  String.le (String a s) (String b t)
  ↔ (Ascii.compare a b = Lt) ∨ (a = b ∧ String.le s t).
Proof.
  unfold String.le, String.leb. cbn [String.compare].
  destruct (Ascii.compare a b) eqn:Hab.
  - apply Ascii.compare_eq_iff in Hab as ->. split; [by right | by intros [? | [_ ?]]].
  - split; [by left | done].
  - split; [done |]. intros [? | [-> _]]; [done |].
    unfold Ascii.compare in Hab. by rewrite N.compare_refl in Hab.
Qed.

Lemma string_le_nil (t : string) : String.le EmptyString t.
Proof. by destruct t. Qed.

(** C7.  The list [main] hands to [run_test] is [sorted(extract_files())]: no
    path is in it twice, it is in lexicographic order, and it has the paths
    file discovery returned. *)
Theorem test_files_sorted_nodup (w : World) :
  NoDup (test_files_of w)
  ∧ StronglySorted String.le (test_files_of w)
  ∧ (∀ file, file ∈ test_files_of w
       ↔ file ∈ extract_files_of (fs_glob w EXTRACT_GLOB_PATH) (fs_glob w EXCLUDE_GLOB_PATH))
  ∧ ∀ g argv args ci_index ci_total,
      argparse w argv = inr args →
      builtin_int w (ci_index_arg args) = Some ci_index →
      builtin_int w (ci_total_arg args) = Some ci_total →
      0 ≤ ci_index < ci_total ∧ 0 < ci_total →
      main w g argv
      = ([GlobScan EXTRACT_GLOB_PATH; GlobScan EXCLUDE_GLOB_PATH]
           ++ trace (run_test w g (test_files_of w) ci_index ci_total (mode_of args)),
         outcome (run_test w g (test_files_of w) ci_index ci_total (mode_of args))).
Proof.
  unfold test_files_of at 1 2 3. split_and!.
  - rewrite sorted_Permutation. apply NoDup_extract_files_of.
  - apply sorted_StronglySorted.
  - intros file. by rewrite sorted_Permutation.
  - intros g argv args ci_index ci_total Hargs Hindex Htotal Hv.
    by apply (main_valid w g argv args).
Qed.

(** ** Decimal numerals *)

Lemma digits_of_uint (d : Decimal.uint) (c : ascii) :
  Str.occurs c (NilEmpty.string_of_uint d) = true → is_digit c = true.
Proof.
  induction d as [|d IH|d IH|d IH|d IH|d IH|d IH|d IH|d IH|d IH|d IH];
    cbn [NilEmpty.string_of_uint Str.occurs]; [done | ..];
    (intros [Hc | Hc]%orb_true_iff; [| by apply IH]);
    apply Ascii.eqb_eq in Hc as ->; reflexivity.
Qed.

Lemma digits_of_nonneg (n : Z) (c : ascii) :
  0 ≤ n → Str.occurs c (Str.of_int n) = true → is_digit c = true.
Proof.
  intros Hn. unfold Str.of_int. destruct n as [|p|p]; [| | lia].
  - cbn. rewrite orb_false_r. intros Hc%Ascii.eqb_eq. by subst.
  - cbn [Z.to_int NilZero.string_of_int]. unfold NilZero.string_of_uint.
    destruct (Pos.to_uint p) eqn:Hp; try (rewrite <- Hp; apply digits_of_uint).
    cbn. rewrite orb_false_r. intros Hc%Ascii.eqb_eq. by subst.
Qed.

Lemma of_int_nonempty (n : Z) : Str.of_int n ≠ EmptyString.
Proof.
  unfold Str.of_int. destruct n as [|p|p]; [done | | done].
  cbn [Z.to_int NilZero.string_of_int]. unfold NilZero.string_of_uint.
  by destruct (Pos.to_uint p).
Qed.

(** ** The focus flag in the command *)

Section focus_flag.
Import Str StrFacts.
Context (g : Globals) (ci_index : Z) (mode : Mode).

Let indent : string := "            ".
Let var (name : string) : string := "-X " +:+ ROOT +:+ "/pkg/version." +:+ name.
Let tail (desc_regex : string) : string :=
  "-coverage.out" +:+ GAP +:+ "--coverpkg " +:+ ROOT +:+ "/pkg/... " +:+ desc_regex
  +:+ " -v --timeout 15m --race ./e2e/...".

(** The command, cut at the character before and the character after each
    interpolated value. *)
Lemma cmd_of_shape (desc_regex : string) :
  cmd_of g ci_index mode desc_regex
  = ("ginkgo run -r --ldflags " +:+ Str.dq +:+ "-s -w " +:+ var "version")
    +:+ String "=" (VERSION g +:+ String " " ((indent +:+ var "buildDate")
    +:+ String "=" (BUILD_DATE g +:+ String " " ((indent +:+ var "gitCommit")
    +:+ String "=" (GIT_COMMIT g +:+ String " " ((indent +:+ var "gitTreeState")
    +:+ String "=" (GIT_TREE_STATE g +:+ String " " ((indent +:+ var "gitTag")
    +:+ String "=" (GIT_TAG g +:+ String " "
          ((indent +:+ var "developmentFlag=true" +:+ GAP +:+ var "ghaBuildMode")
    +:+ String "=" (mode_str mode +:+ String (Ascii.ascii_of_nat 34)
          ((GAP +:+ "--cover --covermode atomic --coverprofile e2e-")
    +:+ (Str.of_int ci_index +:+ tail desc_regex))))))))))))).
Proof. reflexivity. Qed.

Lemma mode_str_clean : Str.contains (mode_str mode) FOCUS_FLAG = false.
Proof. by destruct mode. Qed.

Lemma digit_not_in_flag (c : ascii) : is_digit c = true → occurs c FOCUS_FLAG = false.
Proof.
  intros Hc. destruct (occurs c FOCUS_FLAG) eqn:Hocc; [| done].
  cbn in Hocc. rewrite !orb_true_iff in Hocc.
  repeat (destruct Hocc as [Hocc | Hocc];
          [apply Ascii.eqb_eq in Hocc; subst c; discriminate Hc |]).
  done.
Qed.

Ltac cut_at_sep H :=
  apply contains_app_sep in H; [| reflexivity];
  destruct H as [H | H]; [by vm_compute in H |].

Ltac cut_at_value H :=
  apply contains_app_sep in H; [| reflexivity];
  destruct H as [H | H]; [by eauto 10 |].

(** An occurrence of the flag in the command lies in the focus part or in
    one of the five interpolated metadata values. *)
Lemma cmd_of_focus_inv (desc_regex : string) :
  0 ≤ ci_index →
  Str.contains (cmd_of g ci_index mode desc_regex) FOCUS_FLAG = true →
  Str.contains (tail desc_regex) FOCUS_FLAG = true
  ∨ Str.contains (VERSION g) FOCUS_FLAG = true
  ∨ Str.contains (BUILD_DATE g) FOCUS_FLAG = true
  ∨ Str.contains (GIT_COMMIT g) FOCUS_FLAG = true
  ∨ Str.contains (GIT_TREE_STATE g) FOCUS_FLAG = true
  ∨ Str.contains (GIT_TAG g) FOCUS_FLAG = true.
Proof.
  intros Hindex H. rewrite cmd_of_shape in H.
  do 5 (cut_at_sep H; cut_at_value H).
  cut_at_sep H.
  apply contains_app_sep in H; [| reflexivity].
  destruct H as [H | H]; [by rewrite mode_str_clean in H |].
  destruct (Str.of_int ci_index) as [|d ds] eqn:Hstr;
    [by apply of_int_nonempty in Hstr |].
  assert (∀ c, occurs c (String d ds) = true → occurs c FOCUS_FLAG = false) as Hclean.
  { intros c Hc. apply digit_not_in_flag. apply (digits_of_nonneg ci_index); [done |].
    by rewrite Hstr. }
  rewrite app_cons in H. apply contains_app_sep in H.
  - destruct H as [H | H]; [by vm_compute in H |].
    rewrite contains_skip in H; [by left | done |].
    intros c Hc. apply Hclean. cbn. by rewrite Hc, orb_true_r.
  - apply Hclean. cbn. by rewrite Ascii.eqb_refl.
Qed.

(** Each of the five metadata values is a part of the command. *)
Lemma cmd_of_metadata (desc_regex value : string) :
  value ∈ [VERSION g; BUILD_DATE g; GIT_COMMIT g; GIT_TREE_STATE g; GIT_TAG g] →
  Str.contains (cmd_of g ci_index mode desc_regex) value = true.
Proof.
  intros Hin. rewrite cmd_of_shape.
  repeat (apply elem_of_cons in Hin as [-> | Hin];
          [repeat first [ by apply contains_app_l, contains_refl
                        | apply contains_app_r
                        | apply contains_cons_r ] |]).
  by apply elem_of_nil in Hin.
Qed.

(** Without a file to focus on, the command has the flag exactly when a
    metadata value has it. *)
Lemma cmd_of_no_focus :
  0 ≤ ci_index →
  Str.contains (cmd_of g ci_index mode EmptyString) FOCUS_FLAG = true
  ↔ ∃ value,
      value ∈ [VERSION g; BUILD_DATE g; GIT_COMMIT g; GIT_TREE_STATE g; GIT_TAG g]
      ∧ Str.contains value FOCUS_FLAG = true.
Proof.
  intros Hindex. split.
  - intros H. apply cmd_of_focus_inv in H; [| done].
    destruct H as [H | H]; [by vm_compute in H |].
    repeat (destruct H as [H | H]; [eexists; split; [| exact H]; set_solver |]).
    eexists; split; [| exact H]; set_solver.
  - intros (value & Hin & H). eapply contains_trans; [| exact H].
    by apply cmd_of_metadata.
Qed.

End focus_flag.

Lemma desc_regex_of_nil : desc_regex_of [] = EmptyString.
Proof. reflexivity. Qed.




(** ** The script on the concrete world *)

Ltac in_trace n := apply (list_elem_of_lookup_2 _ n); vm_compute; reflexivity.

Example demo_test_files :
  test_files_of Demo.passing
  = ["e2e/v0/cli/init_test.go"; "e2e/v0/language/python_test.go";
     "e2e/v1/language/r_test.go"].
Proof. vm_compute. reflexivity. Qed.

Lemma extract_files_excludes_witness :
  "e2e/v0/docs/quick_start_test.go" ∈ fs_glob Demo.passing EXTRACT_GLOB_PATH
  ∧ ("e2e/v0/docs/quick_start_test.go"
      ∉ extract_files_of (fs_glob Demo.passing EXTRACT_GLOB_PATH)
                         (fs_glob Demo.passing EXCLUDE_GLOB_PATH))
  ∧ "e2e/v0/cli/cli_suite_test.go" ∈ fs_glob Demo.passing EXTRACT_GLOB_PATH
  ∧ ("e2e/v0/cli/cli_suite_test.go"
      ∉ extract_files_of (fs_glob Demo.passing EXTRACT_GLOB_PATH)
                         (fs_glob Demo.passing EXCLUDE_GLOB_PATH))
  ∧ "e2e/v0/e2e_helper.go" ∈ fs_glob Demo.passing EXTRACT_GLOB_PATH
  ∧ ("e2e/v0/e2e_helper.go"
      ∉ extract_files_of (fs_glob Demo.passing EXTRACT_GLOB_PATH)
                         (fs_glob Demo.passing EXCLUDE_GLOB_PATH)).
Proof.
  pose proof (extract_files_excludes Demo.passing) as [_ Hfiles].
  split_and!.
  - in_trace 2%nat.
  - intros (_ & Hex & _)%Hfiles. apply Hex. in_trace 0%nat.
  - in_trace 1%nat.
  - intros (_ & _ & Hsuite & _)%Hfiles. apply Hsuite. by exists "e2e/v0/cli/cli_".
  - in_trace 4%nat.
  - intros (_ & _ & _ & Hhelper)%Hfiles. apply Hhelper. by exists "e2e/v0/".
Defined.

Lemma test_files_sorted_nodup_witness :
  NoDup (test_files_of Demo.passing)
  ∧ StronglySorted String.le (test_files_of Demo.passing)
  ∧ main Demo.passing (globals_of Demo.passing) (Demo.args "1" "2")
    = ([GlobScan EXTRACT_GLOB_PATH; GlobScan EXCLUDE_GLOB_PATH]
         ++ trace (run_test Demo.passing (globals_of Demo.passing)
                     (test_files_of Demo.passing) 1 2 import),
       outcome (run_test Demo.passing (globals_of Demo.passing)
                  (test_files_of Demo.passing) 1 2 import)).
Proof.
  pose proof (test_files_sorted_nodup Demo.passing) as (Hnd & Hsorted & _ & Hmain).
  split_and!; [exact Hnd | exact Hsorted |].
  apply (Hmain (globals_of Demo.passing) (Demo.args "1" "2") (Demo.namespace "1" "2") 1 2);
    [reflexivity | reflexivity | reflexivity | lia].
Defined.

Lemma child_exit_code_witness :
  Run (demo_cmd Demo.failing 0 2) (proc_env_of Demo.failing (globals_of Demo.failing))
    ∈ trace (script Demo.failing (Demo.args "0" "2"))
  ∧ outcome (script Demo.failing (Demo.args "0" "2"))
    = inl (RuntimeError "ginkgo test failed: return code 1")
  ∧ Str.contains "ginkgo test failed: return code 1" "1" = true
  ∧ exit_status (outcome (script Demo.failing (Demo.args "0" "2"))) ≠ 0.
Proof.
  assert (Run (demo_cmd Demo.failing 0 2)
              (proc_env_of Demo.failing (globals_of Demo.failing))
            ∈ trace (script Demo.failing (Demo.args "0" "2"))) as Hrun
    by in_trace 7%nat.
  split; [exact Hrun |].
  destruct (child_exit_code _ _ _ _ Hrun) as [Hfail _].
  apply Hfail. discriminate.
Defined.

Lemma child_environment_witness :
  Run (demo_cmd Demo.passing 0 2) (proc_env_of Demo.passing (globals_of Demo.passing))
    ∈ trace (run_test Demo.passing (globals_of Demo.passing)
               (test_files_of Demo.passing) 0 2 import)
  ∧ os_environ Demo.passing !! "ENVD_ANALYTICS" = Some "true"
  ∧ proc_env_of Demo.passing (globals_of Demo.passing) !! "ENVD_ANALYTICS" = Some "false"
  ∧ proc_env_of Demo.passing (globals_of Demo.passing) !! "GIT_LATEST_TAG" = Some "v0.3.1"
  ∧ proc_env_of Demo.passing (globals_of Demo.passing) !! "PATH"
    = os_environ Demo.passing !! "PATH"
  ∧ proc_env_of Demo.passing (globals_of Demo.passing) !! "HOME"
    = os_environ Demo.passing !! "HOME".
Proof.
  assert (Run (demo_cmd Demo.passing 0 2)
              (proc_env_of Demo.passing (globals_of Demo.passing))
            ∈ trace (run_test Demo.passing (globals_of Demo.passing)
                       (test_files_of Demo.passing) 0 2 import)) as Hrun
    by in_trace 0%nat.
  destruct (child_environment _ _ _ _ _ _ _ _ Hrun) as (_ & Hflag & Htag & Hother).
  split_and!; [exact Hrun | reflexivity | exact Hflag | exact Htag | |];
    by apply Hother.
Defined.


Lemma argument_validation_witness :
  argparse Demo.passing (Demo.args "2" "2") = inr (Demo.namespace "2" "2")
  ∧ builtin_int Demo.passing "2" = Some 2
  ∧ main Demo.passing (globals_of Demo.passing) (Demo.args "2" "2")
    = raise (RuntimeError
               "bad argument ci_index 2 and ci_total 2, should be 0 <= ci_index < ci_total")
  ∧ trace (main Demo.passing (globals_of Demo.passing) (Demo.args "0" "2"))
    = [GlobScan EXTRACT_GLOB_PATH; GlobScan EXCLUDE_GLOB_PATH;
       Run (demo_cmd Demo.passing 0 2)
           (proc_env_of Demo.passing (globals_of Demo.passing))].
Proof.
  assert (argparse Demo.passing (Demo.args "2" "2") = inr (Demo.namespace "2" "2"))
    as Hargs2 by reflexivity.
  assert (argparse Demo.passing (Demo.args "0" "2") = inr (Demo.namespace "0" "2"))
    as Hargs0 by reflexivity.
  assert (builtin_int Demo.passing "2" = Some 2) as H2 by reflexivity.
  assert (builtin_int Demo.passing "0" = Some 0) as H0 by reflexivity.
  split_and!; [exact Hargs2 | exact H2 | |].
  - destruct (argument_validation Demo.passing (globals_of Demo.passing)
                (Demo.args "2" "2") (Demo.namespace "2" "2") 2 2 Hargs2 H2 H2)
      as (_ & Hbad & _).
    apply Hbad. lia.
  - destruct (argument_validation Demo.passing (globals_of Demo.passing)
                (Demo.args "0" "2") (Demo.namespace "0" "2") 0 2 Hargs0 H0 H2)
      as (_ & _ & Hgood).
    apply Hgood. lia.
Defined.

(** C2, as stated, fails: on this run the arguments 2 and 2 are rejected, and
    five child processes were started before the rejection. *)
Lemma queries_before_validation :
  argparse Demo.passing (Demo.args "2" "2") = inr (Demo.namespace "2" "2")
  ∧ builtin_int Demo.passing "2" = Some 2
  ∧ outcome (script Demo.passing (Demo.args "2" "2"))
    = inl (RuntimeError (bad_argument 2 2))
  ∧ trace (script Demo.passing (Demo.args "2" "2"))
    = [CheckOutput "git describe --match 'v[0-9]*' --always --tags --abbrev=0";
       CheckOutput "date -u +'%Y-%m-%dT%H:%M:%SZ'";
       CheckOutput "git rev-parse HEAD";
       CheckOutput "git rev-parse HEAD";
       CheckOutput "git describe --tags --abbrev=0"]
  ∧ List.existsb spawns_process (trace (script Demo.passing (Demo.args "2" "2"))) = true.
Proof. split_and!; vm_compute; reflexivity. Qed.

Lemma validation_precedes_work_witness :
  argparse Demo.passing (Demo.args "2" "2") = inr (Demo.namespace "2" "2")
  ∧ builtin_int Demo.passing "2" = Some 2
  ∧ main Demo.passing (globals_of Demo.passing) (Demo.args "2" "2")
    = ([], inl (RuntimeError (bad_argument 2 2)))
  ∧ script Demo.passing (Demo.args "2" "2")
    = (CheckOutput <$> load_queries, inl (RuntimeError (bad_argument 2 2))).
Proof.
  assert (argparse Demo.passing (Demo.args "2" "2") = inr (Demo.namespace "2" "2"))
    as Hargs by reflexivity.
  assert (builtin_int Demo.passing "2" = Some 2) as H2 by reflexivity.
  assert (¬ (0 ≤ 2 < 2 ∧ 0 < 2)) as Hbad by lia.
  destruct (validation_precedes_work Demo.passing (Demo.args "2" "2")
              (Demo.namespace "2" "2") 2 2 Hargs H2 H2 Hbad)
    as (Hmain & _ & Hscript).
  split_and!; [exact Hargs | exact H2 | apply Hmain |].
  apply (Hscript (CheckOutput <$> load_queries) (globals_of Demo.passing)).
  vm_compute. reflexivity.
Defined.

(** A tag can carry the text of the flag into the quoted value of --ldflags;
    the flags of the runner stay without it. *)
Example flag_text_in_ldflags :
  VERSION (globals_of Demo.flag_tag) = "v0--focus-file"
  ∧ shard (test_files_of Demo.flag_tag) 3 4 = []
  ∧ Str.contains (ldflags_part (globals_of Demo.flag_tag) import) FOCUS_FLAG = true
  ∧ Str.contains (runner_flags 3 EmptyString) FOCUS_FLAG = false.
Proof. split_and!; vm_compute; reflexivity. Qed.



(** * Further properties of the script *)

(** ** The shape of a shard *)

Lemma shard_indices_S (n : nat) (ci_index ci_total : Z) :
  shard_indices (S n) ci_index ci_total
  = shard_indices n ci_index ci_total
    ++ (if Z.of_nat n mod ci_total =? ci_index then [n] else []).
Proof. unfold shard_indices. by rewrite seq_S, List.filter_app. Qed.

Lemma shard_size_S (n : nat) (ci_index ci_total : Z) :
  0 ≤ ci_index < ci_total →
  shard_size (S n) ci_index ci_total
  = if Z.of_nat n mod ci_total =? ci_index
    then S (shard_size n ci_index ci_total) else shard_size n ci_index ci_total.
Proof.
  intros Hk. unfold shard_size.
  set (m := Z.of_nat n + ci_total - 1 - ci_index).
  replace (Z.of_nat (S n) + ci_total - 1 - ci_index) with (m + 1) by lia.
  assert (0 ≤ m) as Hm by lia.
  pose proof (Z.div_mod m ci_total ltac:(lia)) as Hdm.
  pose proof (Z.mod_pos_bound m ci_total ltac:(lia)) as Hr.
  assert (0 ≤ m / ci_total) as Hq by (apply Z.div_pos; lia).
  destruct (Z.eqb_spec (Z.of_nat n mod ci_total) ci_index) as [Heq | Hne].
  - pose proof (Z.div_mod (Z.of_nat n) ci_total ltac:(lia)) as Hn.
    rewrite Heq in Hn.
    assert (m / ci_total = Z.of_nat n / ci_total) as ->.
    { symmetry. apply (Z.div_unique m ci_total _ (ci_total - 1)); lia. }
    assert ((m + 1) / ci_total = Z.of_nat n / ci_total + 1) as ->.
    { symmetry. apply (Z.div_unique (m + 1) ci_total _ 0); lia. }
    assert (0 ≤ Z.of_nat n / ci_total) by (apply Z.div_pos; lia). lia.
  - assert (m mod ci_total ≠ ci_total - 1) as Hr'.
    { intros Hlast. apply Hne.
      symmetry. apply (Z.mod_unique (Z.of_nat n) ci_total (m / ci_total)); lia. }
    f_equal. symmetry.
    apply (Z.div_unique (m + 1) ci_total _ (m mod ci_total + 1)); lia.
Qed.

Lemma shard_size_position (n : nat) (ci_index ci_total : Z) :
  0 ≤ ci_index < ci_total → Z.of_nat n mod ci_total = ci_index →
  shard_position ci_index ci_total (shard_size n ci_index ci_total) = n.
Proof.
  intros Hk Hmod. unfold shard_position, shard_size.
  pose proof (Z.div_mod (Z.of_nat n) ci_total ltac:(lia)) as Hn. rewrite Hmod in Hn.
  assert (0 ≤ Z.of_nat n / ci_total) as Hq by (apply Z.div_pos; lia).
  assert ((Z.of_nat n + ci_total - 1 - ci_index) / ci_total = Z.of_nat n / ci_total) as ->.
  { symmetry. apply (Z.div_unique _ ci_total _ (ci_total - 1)); lia. }
  rewrite Z2Nat.id by done. lia.
Qed.

(** The positions of a job are [ci_index], [ci_index + ci_total], ... *)
Lemma shard_indices_closed (n : nat) (ci_index ci_total : Z) :
  0 ≤ ci_index < ci_total →
  shard_indices n ci_index ci_total
  = shard_position ci_index ci_total <$> seq 0 (shard_size n ci_index ci_total).
Proof.
  intros Hk. induction n as [|n IH].
  - unfold shard_size. rewrite Z.div_small by lia. done.
  - rewrite shard_indices_S, shard_size_S, IH by done.
    destruct (Z.eqb_spec (Z.of_nat n mod ci_total) ci_index) as [Heq | Hne].
    + rewrite seq_S, fmap_app. simpl. by rewrite shard_size_position.
    + by rewrite app_nil_r.
Qed.

Lemma shard_size_bound (n : nat) (ci_index ci_total : Z) (j : nat) :
  0 ≤ ci_index < ci_total →
  (j < shard_size n ci_index ci_total)%nat
  ↔ (shard_position ci_index ci_total j < n)%nat.
Proof.
  intros Hk. unfold shard_size, shard_position.
  set (m := Z.of_nat n + ci_total - 1 - ci_index).
  assert (0 ≤ m) as Hm by lia.
  pose proof (Z.div_mod m ci_total ltac:(lia)) as Hdm.
  pose proof (Z.mod_pos_bound m ci_total ltac:(lia)) as Hr.
  assert (0 ≤ m / ci_total) as Hq by (apply Z.div_pos; lia).
  split; intros H; nia.
Qed.

Lemma omap_lookup_in_range (files : list string) (P : list nat) (j : nat) :
  Forall (λ i, (i < length files)%nat) P →
  omap (λ i : nat, files !! i) P !! j = P !! j ≫= (λ i, files !! i).
Proof.
  intros HP. revert j. induction HP as [|i P Hi HP IH]; intros j; [done |].
  apply lookup_lt_is_Some in Hi as [x Hx]. cbn. rewrite Hx.
  destruct j as [|j]; cbn; [done | apply IH].
Qed.

Lemma shard_indices_in_range (n : nat) (ci_index ci_total : Z) :
  Forall (λ i, (i < n)%nat) (shard_indices n ci_index ci_total).
Proof. apply Forall_forall. by intros i [Hi _]%elem_of_shard_indices. Qed.

Lemma shard_nth (files : list string) (ci_index ci_total : Z) (j : nat) :
  0 ≤ ci_index < ci_total →
  shard files ci_index ci_total !! j = files !! shard_position ci_index ci_total j.
Proof.
  intros Hk. unfold shard.
  rewrite omap_lookup_in_range by apply shard_indices_in_range.
  rewrite shard_indices_closed, list_lookup_fmap by done.
  destruct (decide (j < shard_size (length files) ci_index ci_total)%nat) as [Hj | Hj].
  - by rewrite lookup_seq_lt.
  - rewrite lookup_seq_ge by lia. cbn. symmetry. apply lookup_ge_None.
    rewrite shard_size_bound in Hj by done. lia.
Qed.

(** X1.  For a job index within the range, the [j]-th file of the shard is the
    file at position [ci_index + j * ci_total] of the list, and the shard ends
    where that position leaves the list. *)
Theorem shard_lookup (files : list string) (ci_index ci_total : Z) (j : nat) :
  0 ≤ ci_index < ci_total →
  shard files ci_index ci_total !! j
  = files !! Z.to_nat (ci_index + Z.of_nat j * ci_total).
Proof. apply shard_nth. Qed.

Lemma shard_lookup_witness :
  0 ≤ 1 < 2
  ∧ shard Demo.five_files 1 2 !! 1%nat = Some "d.go"
  ∧ shard Demo.five_files 1 2 !! 2%nat = None.
Proof.
  assert (0 ≤ 1 < 2) as Hk by lia.
  split; [exact Hk |]. split.
  - rewrite (shard_lookup Demo.five_files 1 2 1 Hk). reflexivity.
  - rewrite (shard_lookup Demo.five_files 1 2 2 Hk). reflexivity.
Defined.

Lemma shard_length (files : list string) (ci_index ci_total : Z) :
  0 ≤ ci_index < ci_total →
  length (shard files ci_index ci_total) = shard_size (length files) ci_index ci_total.
Proof.
  intros Hk. unfold shard.
  assert (∀ P, Forall (λ i, (i < length files)%nat) P →
               length (omap (λ i : nat, files !! i) P) = length P) as Hlen.
  { intros P HP. induction HP as [|i P Hi HP IH]; [done |].
    apply lookup_lt_is_Some in Hi as [x Hx]. cbn. rewrite Hx. cbn. by rewrite IH. }
  rewrite Hlen by apply shard_indices_in_range.
  by rewrite shard_indices_closed, length_fmap, length_seq.
Qed.

(** X2.  The load is balanced: job [ci_index] of [ci_total] gets
    [(n + ci_total - 1 - ci_index) / ci_total] of [n] files, rounded down; a
    job never gets more files than a job with a smaller index, and never more
    than one file fewer. *)
Theorem shard_balanced (files : list string) (j k ci_total : Z) :
  0 ≤ j ≤ k → k < ci_total →
  Z.of_nat (length (shard files k ci_total))
  = (Z.of_nat (length files) + ci_total - 1 - k) / ci_total
  ∧ (length (shard files k ci_total) ≤ length (shard files j ci_total))%nat
  ∧ (length (shard files j ci_total) ≤ length (shard files k ci_total) + 1)%nat.
Proof.
  intros Hjk Hk. rewrite !shard_length by lia. unfold shard_size.
  set (n := Z.of_nat (length files)).
  assert (0 ≤ (n + ci_total - 1 - k) / ci_total) as Hqk by (apply Z.div_pos; lia).
  assert (0 ≤ (n + ci_total - 1 - j) / ci_total) as Hqj by (apply Z.div_pos; lia).
  assert ((n + ci_total - 1 - k) / ci_total ≤ (n + ci_total - 1 - j) / ci_total)
    as Hmono by (apply Z.div_le_mono; lia).
  assert ((n + ci_total - 1 - j) / ci_total ≤ (n + ci_total - 1 - k) / ci_total + 1)
    as Hclose.
  { rewrite <- (Z.div_add _ 1 ci_total) by lia. apply Z.div_le_mono; lia. }
  split_and!; lia.
Qed.

Lemma shard_balanced_witness :
  (0 ≤ 0 ≤ 1) ∧ 1 < 2
  ∧ length (shard Demo.five_files 0 2) = 3%nat
  ∧ length (shard Demo.five_files 1 2) = 2%nat
  ∧ (length (shard Demo.five_files 1 2) ≤ length (shard Demo.five_files 0 2))%nat
  ∧ (length (shard Demo.five_files 0 2) ≤ length (shard Demo.five_files 1 2) + 1)%nat.
Proof.
  assert (0 ≤ 0 ≤ 1) as Hjk by lia. assert (1 < 2) as Hk by lia.
  destruct (shard_balanced Demo.five_files 0 1 2 Hjk Hk) as (_ & Hle & Hge).
  refine (conj Hjk (conj Hk (conj _ (conj _ (conj Hle Hge))))); reflexivity.
Defined.

(** ** A shard keeps the order of the list *)

Lemma sublist_List_filter {A} (f : A → bool) (l : list A) :
  List.filter f l `sublist_of` l.
Proof.
  induction l as [|x l IH]; [constructor |]. cbn.
  destruct (f x); by constructor.
Qed.

Lemma sublist_omap {A B} (f : A → option B) (l1 l2 : list A) :
  l1 `sublist_of` l2 → omap f l1 `sublist_of` omap f l2.
Proof.
  induction 1 as [|x l1 l2 _ IH|x l1 l2 _ IH]; cbn.
  - constructor.
  - destruct (f x); [by constructor | done].
  - destruct (f x); [by constructor | done].
Qed.

Lemma shard_sublist (files : list string) (ci_index ci_total : Z) :
  shard files ci_index ci_total `sublist_of` files.
Proof.
  unfold shard, shard_indices.
  pose proof (sublist_omap (λ i : nat, files !! i) _ _
                (sublist_List_filter
                   (λ i : nat, Z.of_nat i mod ci_total =? ci_index)
                   (seq 0 (length files)))) as Hsub.
  by rewrite omap_lookup_seq in Hsub.
Qed.

Lemma sublist_StronglySorted {A} (R : relation A) (l1 l2 : list A) :
  l1 `sublist_of` l2 → StronglySorted R l2 → StronglySorted R l1.
Proof.
  induction 1 as [|x l1 l2 Hsub IH|x l1 l2 Hsub IH]; intros Hsorted.
  - constructor.
  - apply StronglySorted_inv in Hsorted as [Hl2 Hx]. constructor; [by apply IH |].
    apply Forall_forall. intros y Hy. rewrite Forall_forall in Hx.
    apply Hx. by eapply elem_of_sublist.
  - apply StronglySorted_inv in Hsorted as [Hl2 _]. by apply IH.
Qed.

(** X3.  Whatever the arguments, the shard [main] computes is a sublist of the
    sorted file list: its files are in lexicographic order, none twice, and
    each one is a file that file discovery returned. *)
Theorem shard_of_test_files (w : World) (ci_index ci_total : Z) :
  shard (test_files_of w) ci_index ci_total `sublist_of` test_files_of w
  ∧ StronglySorted String.le (shard (test_files_of w) ci_index ci_total)
  ∧ NoDup (shard (test_files_of w) ci_index ci_total)
  ∧ ∀ file, file ∈ shard (test_files_of w) ci_index ci_total →
            file ∈ extract_files_of (fs_glob w EXTRACT_GLOB_PATH)
                                    (fs_glob w EXCLUDE_GLOB_PATH).
Proof.
  pose proof (shard_sublist (test_files_of w) ci_index ci_total) as Hsub.
  split_and!.
  - done.
  - apply (sublist_StronglySorted _ _ _ Hsub), sorted_StronglySorted.
  - refine (sublist_NoDup _ _ _ Hsub). unfold test_files_of.
    rewrite sorted_Permutation. apply NoDup_extract_files_of.
  - intros file Hin. apply (elem_of_sublist _ _ _ Hin) in Hsub.
    unfold test_files_of in Hsub. by rewrite sorted_Permutation in Hsub.
Qed.

Lemma NoDup_test_files_of (w : World) : NoDup (test_files_of w).
Proof. unfold test_files_of. rewrite sorted_Permutation. apply NoDup_extract_files_of. Qed.

(** X4.  Over the jobs [0 .. ci_total - 1] of one sweep, every file [main]
    discovers is in the shard of exactly one job. *)
Theorem every_file_one_job (w : World) (ci_total : Z) (file : string) :
  0 < ci_total →
  file ∈ test_files_of w →
  ∃ k, 0 ≤ k < ci_total
       ∧ file ∈ shard (test_files_of w) k ci_total
       ∧ ∀ k', file ∈ shard (test_files_of w) k' ci_total → k' = k.
Proof.
  intros Hpos (i & Hi)%list_elem_of_lookup.
  exists (Z.of_nat i mod ci_total). split_and!.
  - by apply Z.mod_pos_bound.
  - by apply Z.mod_pos_bound.
  - apply elem_of_shard. eauto.
  - intros k' (i' & Hi' & <-)%elem_of_shard.
    by rewrite (NoDup_lookup _ _ _ _ (NoDup_test_files_of w) Hi Hi').
Qed.

Lemma every_file_one_job_witness :
  0 < 2
  ∧ "e2e/v1/language/r_test.go" ∈ test_files_of Demo.passing
  ∧ ∃ k, 0 ≤ k < 2
         ∧ "e2e/v1/language/r_test.go" ∈ shard (test_files_of Demo.passing) k 2
         ∧ ∀ k', "e2e/v1/language/r_test.go" ∈ shard (test_files_of Demo.passing) k' 2
                 → k' = k.
Proof.
  assert (0 < 2) as Hpos by done.
  assert ("e2e/v1/language/r_test.go" ∈ test_files_of Demo.passing) as Hin
    by in_trace 2%nat.
  exact (conj Hpos (conj Hin (every_file_one_job Demo.passing 2 _ Hpos Hin))).
Defined.

(** ** The order of a scan does not matter *)

Lemma extract_files_of_same_sets (included included' excluded excluded' : list string) :
  (∀ file, file ∈ included ↔ file ∈ included') →
  (∀ file, file ∈ excluded ↔ file ∈ excluded') →
  extract_files_of included excluded ≡ₚ extract_files_of included' excluded'.
Proof.
  intros Hin Hex. apply NoDup_Permutation; try apply NoDup_extract_files_of.
  intros file. rewrite !elem_of_extract_files_of, Hin, Hex. done.
Qed.

(** X5.  The list [main] passes on depends only on which paths the two scans
    return: two file systems whose scans return the same paths, in any order
    and any number of times, give the same list, and so the same shards; and
    in whatever order the set of files is listed before sorting, sorting
    gives this list. *)
Theorem test_files_scan_order (w w' : World) :
  (∀ file, file ∈ fs_glob w EXTRACT_GLOB_PATH ↔ file ∈ fs_glob w' EXTRACT_GLOB_PATH) →
  (∀ file, file ∈ fs_glob w EXCLUDE_GLOB_PATH ↔ file ∈ fs_glob w' EXCLUDE_GLOB_PATH) →
  test_files_of w = test_files_of w'
  ∧ (∀ ci_index ci_total,
       shard (test_files_of w) ci_index ci_total
       = shard (test_files_of w') ci_index ci_total)
  ∧ ∀ listed,
      listed ≡ₚ extract_files_of (fs_glob w EXTRACT_GLOB_PATH)
                                 (fs_glob w EXCLUDE_GLOB_PATH) →
      sorted listed = test_files_of w.
Proof.
  intros Hin Hex.
  assert (∀ listed,
            listed ≡ₚ extract_files_of (fs_glob w EXTRACT_GLOB_PATH)
                                       (fs_glob w EXCLUDE_GLOB_PATH) →
            sorted listed = test_files_of w) as Hany.
  { intros listed Hperm. apply sorted_unique.
    - by rewrite sorted_Permutation.
    - apply Sorted_merge_sort; apply _. }
  assert (test_files_of w = test_files_of w') as Heq.
  { symmetry. apply Hany. symmetry. by apply extract_files_of_same_sets. }
  split_and!; [done | | done]. intros ci_index ci_total. by rewrite Heq.
Qed.

Lemma test_files_scan_order_witness :
  fs_glob reordered EXCLUDE_GLOB_PATH ≠ fs_glob Demo.passing EXCLUDE_GLOB_PATH
  ∧ test_files_of Demo.passing = test_files_of reordered.
Proof.
  split; [vm_compute; discriminate |].
  assert (∀ pattern file,
            file ∈ fs_glob Demo.passing pattern ↔ file ∈ fs_glob reordered pattern)
    as Hsame.
  { intros pattern file. cbn [fs_glob reordered]. rewrite elem_of_app, elem_of_reverse. tauto. }
  exact (proj1 (test_files_scan_order Demo.passing reordered
                  (Hsame EXTRACT_GLOB_PATH) (Hsame EXCLUDE_GLOB_PATH))).
Defined.

(** ** What the command carries *)

Lemma join_cons (a : string) (l : list string) : Str.join (a :: l) = a +:+ Str.join l.
Proof.
  unfold Str.join. destruct l as [|b l]; cbn [String.concat].
  - by rewrite StrFacts.app_nil_r.
  - reflexivity.
Qed.

Lemma contains_join (l : list string) (x : string) :
  x ∈ l → Str.contains (Str.join l) x = true.
Proof.
  induction l as [|a l IH]; [by intros ?%elem_of_nil |].
  rewrite join_cons. intros [-> | Hin]%elem_of_cons.
  - apply StrFacts.contains_app_l, StrFacts.contains_refl.
  - by apply StrFacts.contains_app_r, IH.
Qed.

Lemma cmd_of_desc_regex (g : Globals) (ci_index : Z) (mode : Mode) (desc_regex : string) :
  Str.contains (cmd_of g ci_index mode desc_regex)
               ("/pkg/... " +:+ desc_regex +:+ " -v --timeout 15m --race ./e2e/...") = true.
Proof.
  apply StrFacts.contains_spec.
  exists ("ginkgo run -r --ldflags " +:+ Str.dq +:+ "-s -w "
          +:+ ldflag "version" (VERSION g) +:+ GAP
          +:+ ldflag "buildDate" (BUILD_DATE g) +:+ GAP
          +:+ ldflag "gitCommit" (GIT_COMMIT g) +:+ GAP
          +:+ ldflag "gitTreeState" (GIT_TREE_STATE g) +:+ GAP
          +:+ ldflag "gitTag" (GIT_TAG g) +:+ GAP
          +:+ ldflag "developmentFlag" "true" +:+ GAP
          +:+ ldflag "ghaBuildMode" (mode_str mode) +:+ Str.dq +:+ GAP
          +:+ "--cover --covermode atomic --coverprofile e2e-" +:+ Str.of_int ci_index
          +:+ "-coverage.out" +:+ GAP
          +:+ "--coverpkg " +:+ ROOT).
  exists EmptyString. unfold cmd_of, ldflag. rewrite StrFacts.app_nil_r. str_assoc.
Qed.

(** X6.  Every file of the shard is focused: for each one the command has the
    focus flag followed by the file name between double quotes, in the part
    between the package list and -v. *)
Theorem shard_files_focused (g : Globals) (files : list string)
    (ci_index ci_total : Z) (mode : Mode) (file : string) :
  file ∈ shard files ci_index ci_total →
  Str.contains (cmd_of g ci_index mode (desc_regex_of (shard files ci_index ci_total)))
               ("--focus-file " +:+ Str.dq +:+ file +:+ Str.dq +:+ " ") = true.
Proof.
  intros Hin. eapply StrFacts.contains_trans; [apply cmd_of_desc_regex |].
  apply StrFacts.contains_app_r, StrFacts.contains_app_l.
  apply contains_join. apply list_elem_of_fmap. by exists file.
Qed.

Lemma shard_files_focused_witness :
  "e2e/v1/language/r_test.go" ∈ shard (test_files_of Demo.passing) 0 2
  ∧ Str.contains (demo_cmd Demo.passing 0 2)
                 ("--focus-file " +:+ Str.dq +:+ "e2e/v1/language/r_test.go"
                  +:+ Str.dq +:+ " ") = true.
Proof.
  assert ("e2e/v1/language/r_test.go" ∈ shard (test_files_of Demo.passing) 0 2) as Hin
    by in_trace 1%nat.
  exact (conj Hin (shard_files_focused (globals_of Demo.passing) _ 0 2 import _ Hin)).
Defined.

Lemma cmd_of_mode (g : Globals) (ci_index : Z) (mode : Mode) (desc_regex : string) :
  Str.contains (cmd_of g ci_index mode desc_regex)
               ("version.ghaBuildMode=" +:+ mode_str mode +:+ Str.dq) = true.
Proof.
  apply StrFacts.contains_spec.
  exists ("ginkgo run -r --ldflags " +:+ Str.dq +:+ "-s -w "
          +:+ ldflag "version" (VERSION g) +:+ GAP
          +:+ ldflag "buildDate" (BUILD_DATE g) +:+ GAP
          +:+ ldflag "gitCommit" (GIT_COMMIT g) +:+ GAP
          +:+ ldflag "gitTreeState" (GIT_TREE_STATE g) +:+ GAP
          +:+ ldflag "gitTag" (GIT_TAG g) +:+ GAP
          +:+ ldflag "developmentFlag" "true" +:+ GAP
          +:+ "-X " +:+ ROOT +:+ "/pkg/").
  eexists. unfold cmd_of, ldflag. str_assoc.
Qed.

(** X7.  The flag --export-cache decides the build mode the runner is given:
    for arguments within the range, the command [main] runs last carries
    ghaBuildMode=safe with the flag and ghaBuildMode=import without it. *)
Theorem export_cache_mode (w : World) (g : Globals) (argv : list string)
    (args : Namespace) (ci_index ci_total : Z) :
  argparse w argv = inr args →
  builtin_int w (ci_index_arg args) = Some ci_index →
  builtin_int w (ci_total_arg args) = Some ci_total →
  0 ≤ ci_index < ci_total →
  ∃ cmd env,
    last (trace (main w g argv)) = Some (Run cmd env)
    ∧ Str.contains cmd
        ("version.ghaBuildMode=" +:+ (if export_cache args then "safe" else "import")
         +:+ Str.dq) = true.
Proof.
  intros Hargs Hindex Htotal Hrange.
  assert (valid ci_index ci_total) as Hv by (unfold valid; lia).
  rewrite (main_valid w g argv args ci_index ci_total Hargs Hindex Htotal Hv). cbn zeta.
  rewrite run_test_eq by (right; lia). cbn [trace fst].
  eexists _, _. split; [reflexivity |].
  pose proof (cmd_of_mode g ci_index (mode_of args)
                (desc_regex_of (shard (test_files_of w) ci_index ci_total))) as Hmode.
  unfold mode_of, mode_str in *. by destruct (export_cache args).
Qed.

Lemma export_cache_mode_witness :
  argparse Demo.passing ["--export-cache"; "0"; "2"]
  = inr {| ci_index_arg := "0"; ci_total_arg := "2"; export_cache := true |}
  ∧ builtin_int Demo.passing "0" = Some 0
  ∧ builtin_int Demo.passing "2" = Some 2
  ∧ 0 ≤ 0 < 2
  ∧ ∃ cmd env,
      last (trace (main Demo.passing (globals_of Demo.passing)
                     ["--export-cache"; "0"; "2"]))
      = Some (Run cmd env)
      ∧ Str.contains cmd ("version.ghaBuildMode=" +:+ "safe" +:+ Str.dq) = true.
Proof.
  assert (argparse Demo.passing ["--export-cache"; "0"; "2"]
          = inr {| ci_index_arg := "0"; ci_total_arg := "2"; export_cache := true |})
    as Hargs by reflexivity.
  assert (builtin_int Demo.passing "0" = Some 0) as H0 by reflexivity.
  assert (builtin_int Demo.passing "2" = Some 2) as H2 by reflexivity.
  assert (0 ≤ 0 < 2) as Hrange by lia.
  exact (conj Hargs (conj H0 (conj H2 (conj Hrange
    (export_cache_mode Demo.passing (globals_of Demo.passing)
       ["--export-cache"; "0"; "2"] _ 0 2 Hargs H0 H2 Hrange))))).
Defined.

(** ** The coverage file of a job *)

Lemma of_int_inj (m n : Z) : Str.of_int m = Str.of_int n → m = n.
Proof.
  unfold Str.of_int. intros Heq.
  assert (∀ z, NilZero.int_of_string (NilZero.string_of_int (Z.to_int z))
               = Some (Z.to_int z)) as Hround.
  { intros z. apply NilZero.isi; destruct z as [|p|p]; cbn; try done;
      intros [= Hnil]; by destruct (Pos.to_uint p) eqn:Hp;
      [apply (DecimalPos.Unsigned.to_uint_nonnil p) | ..]. }
  apply DecimalZ.to_int_inj.
  pose proof (Hround m) as Hm. rewrite Heq, Hround in Hm. congruence.
Qed.

Lemma app_inv_tail (a b c : string) : a +:+ c = b +:+ c → a = b.
Proof.
  assert (∀ s t : string, String.length (s +:+ t) = (String.length s + String.length t)%nat)
    as Hlen.
  { intros s t. induction s as [|x s IH]; [done |].
    rewrite StrFacts.app_cons. cbn. by rewrite IH. }
  revert b. induction a as [|x a IH]; intros [|y b] Heq.
  - done.
  - apply (f_equal String.length) in Heq. rewrite !Hlen in Heq. cbn in Heq. lia.
  - apply (f_equal String.length) in Heq. rewrite !Hlen in Heq. cbn in Heq. lia.
  - rewrite !StrFacts.app_cons in Heq. injection Heq as -> Heq. f_equal. by apply IH.
Qed.

(** X8.  The command names the coverage file e2e-<ci_index>-coverage.out, and
    two jobs with different indices name different files: the jobs of a sweep
    do not overwrite each other's coverage. *)
Theorem coverprofile_per_job (g : Globals) (ci_index : Z) (mode : Mode)
    (desc_regex : string) :
  Str.contains (cmd_of g ci_index mode desc_regex)
               ("--coverprofile " +:+ coverprofile_of ci_index +:+ " ") = true
  ∧ ∀ ci_index', coverprofile_of ci_index = coverprofile_of ci_index' →
                 ci_index = ci_index'.
Proof.
  split.
  - apply StrFacts.contains_spec.
    exists ("ginkgo run -r --ldflags " +:+ Str.dq +:+ "-s -w "
            +:+ ldflag "version" (VERSION g) +:+ GAP
            +:+ ldflag "buildDate" (BUILD_DATE g) +:+ GAP
            +:+ ldflag "gitCommit" (GIT_COMMIT g) +:+ GAP
            +:+ ldflag "gitTreeState" (GIT_TREE_STATE g) +:+ GAP
            +:+ ldflag "gitTag" (GIT_TAG g) +:+ GAP
            +:+ ldflag "developmentFlag" "true" +:+ GAP
            +:+ ldflag "ghaBuildMode" (mode_str mode) +:+ Str.dq +:+ GAP
            +:+ "--cover --covermode atomic ").
    eexists. unfold cmd_of, ldflag, coverprofile_of. str_assoc.
  - intros ci_index' Heq. unfold coverprofile_of in Heq.
    apply (inj (String.app "e2e-")) in Heq. apply app_inv_tail in Heq.
    by apply of_int_inj.
Qed.

(** ** Trimmed metadata *)








(** ** When the module does not load *)

(** X10.  When one of the five metadata commands exits with a non-zero status
    (no tag in the repository, no git), the script ends with the
    CalledProcessError of the first command that failed, after running the
    commands up to that one and no other, whatever the arguments: [main] is
    not called, no file is scanned and no test is run. *)
Theorem failed_query_aborts (w : World) (argv : list string) (k : nat) :
  query_status w k ≠ 0 →
  ∃ n cmd,
    (n ≤ k)%nat
    ∧ load_queries !! n = Some cmd
    ∧ (∀ j, (j < n)%nat → query_status w j = 0)
    ∧ fst (sh_output w n cmd) ≠ 0
    ∧ script w argv
      = (CheckOutput <$> take (S n) load_queries,
         inl (CalledProcessError (fst (sh_output w n cmd)) cmd))
    ∧ exit_status (outcome (script w argv)) = 1.
Proof.
  intros Hfail.
  destruct (module_load_cases w) as [[Hall _] | (n & cmd & Hcmd & Hbefore & Hn & Hload)];
    [by specialize (Hall k) |].
  exists n, cmd. rewrite script_cases, Hload.
  assert (query_status w n = fst (sh_output w n cmd)) as Hstatus
    by (unfold query_status; by rewrite Hcmd).
  rewrite <- Hstatus. split_and!; try done.
  destruct (decide (k < n)%nat) as [Hlt | ?]; [| lia]. by specialize (Hbefore k Hlt).
Qed.

Lemma failed_query_aborts_witness :
  query_status untagged 4 ≠ 0
  ∧ script untagged (Demo.args "0" "2")
    = (CheckOutput <$> load_queries,
       inl (CalledProcessError 128 "git describe --tags --abbrev=0")).
Proof.
  assert (query_status untagged 4 ≠ 0) as Hfail by (vm_compute; discriminate).
  split; [exact Hfail |].
  destruct (failed_query_aborts untagged (Demo.args "0" "2") 4 Hfail)
    as (n & cmd & _ & _ & _ & _ & _ & _).
  vm_compute. reflexivity.
Defined.

(** ** Arguments that are not integers *)

(** X11.  An argument [int()] refuses makes [main] raise the ValueError for
    that argument before it does anything: ci_index is converted first, so
    when both are refused the error is the one for ci_index. *)
Theorem non_integer_argument (w : World) (g : Globals) (argv : list string)
    (args : Namespace) :
  argparse w argv = inr args →
  (builtin_int w (ci_index_arg args) = None →
   main w g argv = ([], inl (ValueError (ci_index_arg args))))
  ∧ (∀ ci_index, builtin_int w (ci_index_arg args) = Some ci_index →
                 builtin_int w (ci_total_arg args) = None →
                 main w g argv = ([], inl (ValueError (ci_total_arg args)))).
Proof.
  intros Hargs. split.
  - intros Hindex. unfold main, parse_args, int. rewrite Hargs. cbn. by rewrite Hindex.
  - intros ci_index Hindex Htotal. unfold main, parse_args, int. rewrite Hargs. cbn.
    by rewrite Hindex, Htotal.
Qed.

Lemma non_integer_argument_witness :
  argparse Demo.passing (Demo.args "one" "two") = inr (Demo.namespace "one" "two")
  ∧ builtin_int Demo.passing "one" = None
  ∧ main Demo.passing (globals_of Demo.passing) (Demo.args "one" "two")
    = ([], inl (ValueError "one"))
  ∧ main Demo.passing (globals_of Demo.passing) (Demo.args "1" "two")
    = ([], inl (ValueError "two")).
Proof.
  assert (argparse Demo.passing (Demo.args "one" "two") = inr (Demo.namespace "one" "two"))
    as Hargs by reflexivity.
  assert (argparse Demo.passing (Demo.args "1" "two") = inr (Demo.namespace "1" "two"))
    as Hargs' by reflexivity.
  assert (builtin_int Demo.passing "one" = None) as Hone by reflexivity.
  assert (builtin_int Demo.passing "two" = None) as Htwo by reflexivity.
  assert (builtin_int Demo.passing "1" = Some 1) as H1 by reflexivity.
  refine (conj Hargs (conj Hone (conj _ _))).
  - exact (proj1 (non_integer_argument Demo.passing (globals_of Demo.passing)
                    (Demo.args "one" "two") _ Hargs) Hone).
  - exact (proj2 (non_integer_argument Demo.passing (globals_of Demo.passing)
                    (Demo.args "1" "two") _ Hargs') 1 H1 Htwo).
Defined.

(** ** The order of the effects *)

(** X12.  A run of the script is either a run of the first metadata commands
    and nothing else, or the five metadata commands, the inclusion scan, the
    exclusion scan and one test runner, in this order: the runner is started
    at most once, last, and a scan is always followed by the runner. *)
Theorem script_trace_shape (w : World) (argv : list string) :
  (∃ n, trace (script w argv) = CheckOutput <$> take n load_queries)
  ∨ (∃ cmd env,
       trace (script w argv)
       = (CheckOutput <$> load_queries)
           ++ [GlobScan EXTRACT_GLOB_PATH; GlobScan EXCLUDE_GLOB_PATH; Run cmd env]).
Proof.
  rewrite script_cases.
  destruct (module_load_cases w) as [[_ ->] | (n & c & _ & _ & _ & ->)];
    cbn [trace fst]; [| left; by exists (S n)].
  destruct (main_cases w (globals_of w) argv)
    as [(code & _ & ->) | [(args & s & _ & ->)
        | [(args & i & t & _ & _ & _ & _ & ->) | (args & i & t & _ & _ & _ & Hv & ->)]]];
    cbn [trace fst raise].
  - left. exists 5%nat. by rewrite app_nil_r.
  - left. exists 5%nat. by rewrite app_nil_r.
  - left. exists 5%nat. by rewrite app_nil_r.
  - right. rewrite run_test_eq by (right; unfold valid in Hv; lia). cbn [trace fst].
    by eexists _, _.
Qed.

(** X13.  The script exits with status 0 only when it started the test runner,
    last, and the runner returned 0, or when argparse ended the process with
    status 0 (the help), after the five metadata commands and without a
    scan or a runner. *)
Theorem exit_zero_means_tests_ran (w : World) (argv : list string) :
  exit_status (outcome (script w argv)) = 0 →
  (∃ cmd env, last (trace (script w argv)) = Some (Run cmd env) ∧ sh_run w cmd env = 0)
  ∨ (argparse w argv = inl 0
     ∧ script w argv = (CheckOutput <$> load_queries, inl (SystemExit 0))).
Proof.
  rewrite script_cases.
  destruct (module_load_cases w) as [[_ ->] | (n & c & _ & _ & _ & ->)];
    cbn [trace outcome fst snd]; [| done].
  destruct (main_cases w (globals_of w) argv)
    as [(code & Hcode & ->) | [(args & s & _ & ->)
        | [(args & i & t & _ & _ & _ & _ & ->) | (args & i & t & _ & _ & _ & Hv & ->)]]];
    cbn [trace outcome fst snd raise exit_status]; [| done | done |].
  - intros ->. right. by rewrite app_nil_r.
  - rewrite run_test_eq by (right; unfold valid in Hv; lia).
    cbn [trace outcome fst snd].
    destruct (Z.eqb_spec (sh_run w (cmd_of (globals_of w) i (mode_of args)
                  (desc_regex_of (shard (test_files_of w) i t)))
                (proc_env_of w (globals_of w))) 0)
      as [Hzero | _]; [| done].
    intros _. left. eexists _, _. split; [| exact Hzero]. reflexivity.
Qed.

Lemma exit_zero_means_tests_ran_witness :
  exit_status (outcome (script Demo.passing (Demo.args "0" "2"))) = 0
  ∧ ((∃ cmd env,
        last (trace (script Demo.passing (Demo.args "0" "2"))) = Some (Run cmd env)
        ∧ sh_run Demo.passing cmd env = 0)
     ∨ (argparse Demo.passing (Demo.args "0" "2") = inl 0
        ∧ script Demo.passing (Demo.args "0" "2")
          = (CheckOutput <$> load_queries, inl (SystemExit 0)))).
Proof.
  assert (exit_status (outcome (script Demo.passing (Demo.args "0" "2"))) = 0) as Hexit
    by (vm_compute; reflexivity).
  exact (conj Hexit (exit_zero_means_tests_ran _ _ Hexit)).
Defined.

(** The help: argparse ends the process with status 0 after the module load. *)
Example help_exits_zero :
  script (Demo.failing) ["--help"] = (CheckOutput <$> load_queries, inl (SystemExit 0))
  ∧ exit_status (outcome (script Demo.failing ["--help"])) = 0.
Proof. split; vm_compute; reflexivity. Qed.

(** ** [run_test] with a zero total *)

(** X14.  [run_test] starts the runner unless it is given a zero [ci_total]
    together with a file: then the selection divides by zero, the error is
    ZeroDivisionError and no child is started.  With a zero [ci_total] and no
    file nothing is divided and the runner is started without a focus. *)
Theorem run_test_zero_division (w : World) (g : Globals) (files : list string)
    (ci_index ci_total : Z) (mode : Mode) :
  (files ≠ [] ∧ ci_total = 0
   → run_test w g files ci_index ci_total mode = ([], inl ZeroDivisionError))
  ∧ (¬ (files ≠ [] ∧ ci_total = 0)
     → trace (run_test w g files ci_index ci_total mode)
       = [Run (cmd_of g ci_index mode (desc_regex_of (shard files ci_index ci_total)))
              (proc_env_of w g)])
  ∧ trace (run_test w g [] ci_index 0 mode)
    = [Run (cmd_of g ci_index mode EmptyString) (proc_env_of w g)].
Proof.
  split_and!.
  - intros [Hfiles ->]. destruct files as [|file files']; [done |].
    apply run_test_zero_total.
  - intros Hok. rewrite run_test_eq; [done |].
    destruct files as [|file files']; [by left |]. right. intros ->. by apply Hok.
  - by rewrite run_test_eq by (by left).
Qed.

Lemma run_test_zero_division_witness :
  Demo.five_files ≠ [] ∧ 0 = 0
  ∧ run_test Demo.passing (globals_of Demo.passing) Demo.five_files 0 0 import
    = ([], inl ZeroDivisionError).
Proof.
  assert (Demo.five_files ≠ [] ∧ 0 = 0) as Hzero by done.
  destruct Hzero as [Hfiles Hz].
  refine (conj Hfiles (conj Hz _)).
  exact (proj1 (run_test_zero_division Demo.passing (globals_of Demo.passing)
                  Demo.five_files 0 0 import) (conj Hfiles Hz)).
Defined.

(** ** Jobs with and without files *)

(** X15.  For a job index within the range, the shard is empty exactly when
    the index is at or beyond the number of files; otherwise its first file
    is the file at position [ci_index], and the command has a focus flag. *)
Theorem shard_empty_iff (g : Globals) (files : list string) (ci_index ci_total : Z)
    (mode : Mode) :
  0 ≤ ci_index < ci_total →
  (shard files ci_index ci_total = [] ↔ Z.of_nat (length files) ≤ ci_index)
  ∧ shard files ci_index ci_total !! 0%nat = files !! Z.to_nat ci_index
  ∧ (ci_index < Z.of_nat (length files) →
     Str.contains (cmd_of g ci_index mode (desc_regex_of (shard files ci_index ci_total)))
                  FOCUS_FLAG = true).
Proof.
  intros Hk.
  assert (shard files ci_index ci_total !! 0%nat = files !! Z.to_nat ci_index) as Hfirst.
  { rewrite shard_nth by done. unfold shard_position. f_equal. lia. }
  split_and!.
  - split; [| by apply shard_beyond].
    intros Hnil. rewrite Hnil in Hfirst. symmetry in Hfirst.
    apply lookup_ge_None in Hfirst. lia.
  - done.
  - intros Hlt.
    destruct (files !! Z.to_nat ci_index) as [file|] eqn:Hfile;
      [| apply lookup_ge_None in Hfile; lia].
    eapply StrFacts.contains_trans; [apply cmd_of_desc_regex |].
    apply StrFacts.contains_app_r, StrFacts.contains_app_l.
    destruct (shard files ci_index ci_total) as [|first rest]; [done |].
    unfold desc_regex_of. rewrite fmap_cons, join_cons.
    apply StrFacts.contains_app_l. unfold focus_file.
    apply StrFacts.contains_app_l, StrFacts.contains_refl.
Qed.

Lemma shard_empty_iff_witness :
  0 ≤ 1 < 2
  ∧ shard Demo.five_files 1 2 !! 0%nat = Some "b.go"
  ∧ shard Demo.five_files 1 2 ≠ [].
Proof.
  assert (0 ≤ 1 < 2) as Hk by lia.
  destruct (shard_empty_iff (globals_of Demo.passing) Demo.five_files 1 2 import Hk)
    as (Hnil & Hfirst & _).
  refine (conj Hk (conj Hfirst _)).
  intros Hempty%Hnil. vm_compute in Hempty. by apply Hempty.
Defined.
